(** * The Poisson loss of gbm ([src/poisson.cpp]), embedded and verified.

    [CPoisson] supplies the five loss-specific operations of the boosting
    engine: [ComputeWorkingResponse], [InitF], [Deviance], [FitBestConstant]
    and [BagImprovement].  All of them are loops over caller-owned arrays of
    C [double]s.

    Modelling choices.
    - A [double] is an IEEE 754 binary64 value: [spec_float] with precision 53
      and maximal exponent 1024, and the operations [SFadd], [SFsub], [SFmul],
      [SFdiv], [SFcompare] of the Standard Library's specification of
      floating-point arithmetic (round to nearest, ties to even).  Infinities,
      signed zeros and NaN are values like any other.
    - [std::exp] and [std::log] belong to the C library, not to the
      repository; the development is parametric in them (Section variables),
      and the few facts it uses are those Annex F of the C standard fixes for
      IEC 60559 implementations, stated as the premises [exp_annex_F] and
      [log_annex_F] where needed.  Expressions are evaluated in binary64
      itself (FLT_EVAL_METHOD 0), not in a wider format.
    - [R::fmax2] and [R::fmin2] belong to R's nmath library; they are
      transcribed from nmath ([fmax2.c], [fmin2.c]).
    - An array is a [list]; reading or writing outside it is undefined
      behaviour in C++ and makes the model return [None].  A pointer that may
      be [NULL] ([adOffset]) is an [option].
    - [unsigned long] counters that only run from 0 to a bound are [nat]; where
      the code mixes [int] and [unsigned long] ([Deviance]) the conversion
      modulo 2^64 is written out over [Z].
    - The terminal nodes are objects shared with the caller, reached through
      pointers: a store (a list of nodes) and a vector of nullable indices
      into it. *)

From Stdlib Require Import ZArith Lia Bool List.
From Stdlib Require Import Floats.SpecFloat.
From stdpp Require Import base tactics option list.

Local Open Scope Z_scope.

(** ** Binary64 arithmetic *)

Definition double : Type := spec_float.

Definition dbl_prec : Z := 53.
Definition dbl_emax : Z := 1024.

Definition dadd : double → double → double := SFadd dbl_prec dbl_emax.
Definition dsub : double → double → double := SFsub dbl_prec dbl_emax.
Definition dmul : double → double → double := SFmul dbl_prec dbl_emax.
Definition ddiv : double → double → double := SFdiv dbl_prec dbl_emax.
Definition dneg : double → double := SFopp.

(** [==] and [<] of C on doubles: both are false when an operand is NaN. *)
Definition deqb : double → double → bool := SFeqb.
Definition dltb : double → double → bool := SFltb.
Definition dleb : double → double → bool := SFleb.

(** Conversion of a C [int] to [double]; exact, an [int] has at most 31
    significant bits. *)
Definition of_int (z : Z) : double := binary_normalize dbl_prec dbl_emax z 0 false.

(** The literal [0.0]. *)
Definition d0 : double := S754_zero false.

(** [HUGE_VAL] of <math.h>: positive infinity on IEC 60559 implementations. *)
Definition HUGE_VAL : double := S754_infinity false.

Definition ISNAN (x : double) : bool :=
  match x with S754_nan => true | _ => false end.

(** Neither NaN nor an infinity. *)
Definition is_finite (x : double) : bool :=
  match x with S754_zero _ | S754_finite _ _ _ => true | _ => false end.

Definition is_zero (x : double) : bool :=
  match x with S754_zero _ => true | _ => false end.

Declare Scope dbl_scope.
Delimit Scope dbl_scope with D.
Bind Scope dbl_scope with double.
Infix "+" := dadd : dbl_scope.
Infix "-" := dsub : dbl_scope.
Infix "*" := dmul : dbl_scope.
Infix "/" := ddiv : dbl_scope.
Notation "- x" := (dneg x) : dbl_scope.

Global Instance double_inhabited : Inhabited double := populate d0.

(** [R::fmax2] and [R::fmin2] (R's nmath, compiled with IEEE_754):
<<
    double fmax2(double x, double y) {
        if (ISNAN(x) || ISNAN(y)) return x + y;
        return (x < y) ? y : x;
    }
    double fmin2(double x, double y) {
        if (ISNAN(x) || ISNAN(y)) return x + y;
        return (x < y) ? x : y;
    }
>> *)
Definition fmax2 (x y : double) : double :=
  if ISNAN x || ISNAN y then (x + y)%D
  else if dltb x y then y else x.

Definition fmin2 (x y : double) : double :=
  if ISNAN x || ISNAN y then (x + y)%D
  else if dltb x y then x else y.

(** The order of the numbers among the doubles, by three integer keys
    compared lexicographically: the class (negative infinity, negative, zero,
    positive, positive infinity), then exponent and mantissa, both negated
    for negative numbers. *)
Definition key_class (x : double) : Z :=
  match x with
  | S754_infinity true => -2
  | S754_finite true _ _ => -1
  | S754_finite false _ _ => 1
  | S754_infinity false => 2
  | _ => 0
  end.

Definition key_exp (x : double) : Z :=
  match x with
  | S754_finite true _ e => - e
  | S754_finite false _ e => e
  | _ => 0
  end.

Definition key_man (x : double) : Z :=
  match x with
  | S754_finite true m _ => Z.neg m
  | S754_finite false m _ => Z.pos m
  | _ => 0
  end.

Definition key_lt (x y : double) : Prop :=
  key_class x < key_class y
  ∨ (key_class x = key_class y
     ∧ (key_exp x < key_exp y ∨ (key_exp x = key_exp y ∧ key_man x < key_man y))).

(** ** Loops and arrays *)

(** [for (i = lo; i < lo + n; i++) s = body(i, s)], where the body may run
    into undefined behaviour ([None]).  The increment cannot wrap: [i] stays
    below the bound, itself an [unsigned long]. *)
Fixpoint for_loop {S : Type} (n : nat) (i : nat)
    (body : nat → S → option S) (s : S) : option S :=
  match n with
  | O => Some s
  | Datatypes.S n' => s' ← body i s; for_loop n' (Datatypes.S i) body s'
  end.

(** [a[i] = v] on an array of known extent. *)
Definition store {A : Type} (a : list A) (i : nat) (v : A) : option (list A) :=
  _ ← a !! i; Some (<[i := v]> a).

(** [a[i]] where [a] may be the null pointer, read as [dflt] in that case
    ([(a == NULL) ? dflt : a[i]]). *)
Definition load_or (a : option (list double)) (i : nat) (dflt : double) : option double :=
  match a with
  | None => Some dflt
  | Some l => l !! i
  end.

(** Value conversion to [unsigned long] (64 bits). *)
Definition to_ulong (z : Z) : Z := z mod 2 ^ 64.

(** ** The objects [FitBestConstant] works on *)

(** Modelled from the spec: the class [CNodeTerminal] is declared outside
    [poisson.cpp]; of a terminal node this module only writes the field
    [dPrediction], "a mutable prediction field (log-scale constant to add for
    observations routed to that leaf)". *)
Record CNodeTerminal : Type := { dPrediction : double }.

(** The data members of [CPoisson] (declared in poisson.h): the per-node
    scratch vectors. *)
Record CPoisson : Type := {
  vecdNum : list double;
  vecdDen : list double;
  vecdMax : list double;
  vecdMin : list double
}.

Definition set_vecdNum (v : list double) (this : CPoisson) : CPoisson :=
  {| vecdNum := v; vecdDen := vecdDen this; vecdMax := vecdMax this; vecdMin := vecdMin this |}.
Definition set_vecdDen (v : list double) (this : CPoisson) : CPoisson :=
  {| vecdNum := vecdNum this; vecdDen := v; vecdMax := vecdMax this; vecdMin := vecdMin this |}.
Definition set_vecdMax (v : list double) (this : CPoisson) : CPoisson :=
  {| vecdNum := vecdNum this; vecdDen := vecdDen this; vecdMax := v; vecdMin := vecdMin this |}.
Definition set_vecdMin (v : list double) (this : CPoisson) : CPoisson :=
  {| vecdNum := vecdNum this; vecdDen := vecdDen this; vecdMax := vecdMax this; vecdMin := v |}.

(** [p->dPrediction] and [p->dPrediction = v] for the node at address [a]. *)
Definition get_dPrediction (nodes : list CNodeTerminal) (a : nat) : option double :=
  dPrediction <$> nodes !! a.

Definition set_dPrediction (nodes : list CNodeTerminal) (a : nat) (v : double)
    : option (list CNodeTerminal) :=
  store nodes a {| dPrediction := v |}.

(** A stand-in for the C library, for running the model on concrete inputs:
    the special values are those of Annex F (F.10.3.1, F.10.3.7); at every
    other argument it returns a fixed value of the right sign, so nothing
    evaluated with it may depend on more than the special values. *)
Definition exp_special (x : double) : double :=
  match x with
  | S754_nan => S754_nan
  | S754_infinity true => S754_zero false
  | S754_infinity false => S754_infinity false
  | _ => of_int 1
  end.

Definition log_special (x : double) : double :=
  match x with
  | S754_nan => S754_nan
  | S754_zero _ => S754_infinity true
  | S754_infinity false => S754_infinity false
  | S754_infinity true | S754_finite true _ _ => S754_nan
  | S754_finite false _ _ => S754_zero false
  end.

(** Inputs for concrete runs: three observations with [y = 1, 2, 3], unit
    weights and a zero score; an empty [CPoisson] object; two terminal nodes;
    and the doubles -(2^54 + 4), 2^60 and 2^1023. *)
Definition ex_y : list double := [of_int 1; of_int 2; of_int 3].
Definition ex_w : list double := [of_int 1; of_int 1; of_int 1].
Definition ex_f : list double := [d0; d0; d0].
Definition ex_this : CPoisson :=
  {| vecdNum := []; vecdDen := []; vecdMax := []; vecdMin := [] |}.
Definition ex_nodes : list CNodeTerminal :=
  [{| dPrediction := d0 |}; {| dPrediction := d0 |}].
Definition ex_y0 : list double := [d0; of_int 2; of_int 3].
Definition ex_assign : list nat := [0%nat; 0%nat; 1%nat].
Definition ex_bag : list Z := [1; 0; 1].
Definition ex_handles : list (option nat) := [Some 0%nat; Some 1%nat].
Definition ex_far : double := binary_normalize dbl_prec dbl_emax (- (2 ^ 54 + 4)) 0 false.
Definition two_60 : double := binary_normalize dbl_prec dbl_emax 1 60 false.
Definition two_1023 : double := binary_normalize dbl_prec dbl_emax 1 1023 false.

Section Poisson.

(** [std::exp] and [std::log] of the platform. *)
Variable exp : double → double.
Variable log : double → double.

Local Open Scope dbl_scope.

(** ** The operations of [CPoisson] *)

(** *** [CPoisson::ComputeWorkingResponse]

    [adZ] is the output array, overwritten at the indices below [nTrain];
    the model returns its new contents. *)
Definition ComputeWorkingResponse
    (adY adMisc : list double) (adOffset : option (list double))
    (adF adZ adWeight : list double) (afInBag : list Z)
    (nTrain : nat) (cIdxOff : Z) : option (list double) :=
  for_loop nTrain 0%nat
    (λ i adZ,
       f ← adF !! i;
       o ← load_or adOffset i d0;
       let dF := f + o in
       y ← adY !! i;
       store adZ i (y - exp dF))
    adZ.

(** *** [CPoisson::InitF]

    The result is the value left in the reference parameter [dInitF]. *)
Definition InitF
    (adY adMisc : list double) (adOffset : option (list double))
    (adWeight : list double) (cLength : nat) : option double :=
  '(dSum, dDenom) ←
    match adOffset with
    | None =>
        for_loop cLength 0%nat
          (λ i '(dSum, dDenom),
             w ← adWeight !! i;
             y ← adY !! i;
             Some (dSum + w * y, dDenom + w))
          (d0, d0)
    | Some off =>
        for_loop cLength 0%nat
          (λ i '(dSum, dDenom),
             w ← adWeight !! i;
             y ← adY !! i;
             o ← off !! i;
             Some (dSum + w * y, dDenom + w * exp o))
          (d0, d0)
    end;
  Some (log (dSum / dDenom)).

(** *** [CPoisson::Deviance]

    [i] is an [unsigned long] and [cIdxOff] an [int]: the loop starts at
    [(unsigned long) cIdxOff] and stops at [cLength + cIdxOff] computed in
    [unsigned long]; it does not run at all when the bound is not above the
    start.  [-2*dL/dW] parses as [(-2*dL)/dW]. *)
Definition Deviance
    (adY adMisc : list double) (adOffset : option (list double))
    (adWeight adF : list double) (cLength : nat) (cIdxOff : Z) : option double :=
  let lo := to_ulong cIdxOff in
  let hi := to_ulong (Z.of_nat cLength + cIdxOff) in
  '(dL, dW) ←
    match adOffset with
    | None =>
        for_loop (Z.to_nat (hi - lo)) (Z.to_nat lo)
          (λ i '(dL, dW),
             w ← adWeight !! i;
             y ← adY !! i;
             f ← adF !! i;
             Some (dL + w * (y * f - exp f), dW + w))
          (d0, d0)
    | Some off =>
        for_loop (Z.to_nat (hi - lo)) (Z.to_nat lo)
          (λ i '(dL, dW),
             w ← adWeight !! i;
             y ← adY !! i;
             o ← off !! i;
             f ← adF !! i;
             Some (dL + w * (y * (o + f) - exp (o + f)), dW + w))
          (d0, d0)
    end;
  Some (of_int (-2) * dL / dW).

(** *** [CPoisson::BagImprovement] *)
Definition BagImprovement
    (adY adMisc : list double) (adOffset : option (list double))
    (adWeight adF adFadj : list double) (afInBag : list Z)
    (dStepSize : double) (nTrain : nat) : option double :=
  '(dReturnValue, dW) ←
    for_loop nTrain 0%nat
      (λ i '(dReturnValue, dW),
         b ← afInBag !! i;
         if Z.eqb b 0 then
           f ← adF !! i;
           o ← load_or adOffset i d0;
           let dF := f + o in
           w ← adWeight !! i;
           y ← adY !! i;
           a ← adFadj !! i;
           Some (dReturnValue
                   + w * (y * dStepSize * a - exp (dF + dStepSize * a) + exp dF),
                 dW + w)
         else Some (dReturnValue, dW))
      (d0, d0);
  Some (dReturnValue / dW).

(** *** [CPoisson::FitBestConstant]

    The four scratch vectors are members of the [CPoisson] object; the call
    resizes them to [cTermNodes] and refills them, so their old contents do
    not matter.  [vecpTermNodes] is a vector of pointers: an entry is [None]
    for [NULL] and [Some a] for the node stored at index [a] of the nodes'
    store, which the call updates in place. *)

Definition accumulate_in_bag (adW adY : list double) (dExp : double)
    (iObs k : nat) (this : CPoisson) : option CPoisson :=
  w ← adW !! iObs;
  y ← adY !! iObs;
  n ← vecdNum this !! k;
  vecdNum' ← store (vecdNum this) k (n + w * y);
  d ← vecdDen this !! k;
  vecdDen' ← store (vecdDen this) k (d + w * dExp);
  Some (set_vecdDen vecdDen' (set_vecdNum vecdNum' this)).

Definition track_extremes (f : double) (k : nat) (this : CPoisson) : option CPoisson :=
  mx ← vecdMax this !! k;
  vecdMax' ← store (vecdMax this) k (fmax2 f mx);
  mn ← vecdMin this !! k;
  vecdMin' ← store (vecdMin this) k (fmin2 f mn);
  Some (set_vecdMin vecdMin' (set_vecdMax vecdMax' this)).

Definition fit_node (this : CPoisson) (iNode : nat) (a : nat)
    (nodes : list CNodeTerminal) : option (list CNodeTerminal) :=
  num ← vecdNum this !! iNode;
  nodes ←
    (if deqb num d0 then
       set_dPrediction nodes a (- of_int 19)
     else
       den ← vecdDen this !! iNode;
       if deqb den d0 then
         set_dPrediction nodes a d0
       else
         set_dPrediction nodes a (log (num / den)));
  p ← get_dPrediction nodes a;
  mx ← vecdMax this !! iNode;
  nodes ← set_dPrediction nodes a (fmin2 p (of_int 19 - mx));
  p ← get_dPrediction nodes a;
  mn ← vecdMin this !! iNode;
  set_dPrediction nodes a (fmax2 p (of_int (-19) - mn)).

(** The first loop: the sums of every node, and without an offset the
    extremes of [adF] over the node as well. *)
Definition accumulate_nodes
    (this : CPoisson) (adY : list double) (adOffset : option (list double))
    (adW adF : list double) (aiNodeAssign : list nat) (nTrain : nat)
    (afInBag : list Z) : option CPoisson :=
  match adOffset with
  | None =>
      for_loop nTrain 0%nat
        (λ iObs this,
           b ← afInBag !! iObs;
           k ← aiNodeAssign !! iObs;
           this ←
             (if Z.eqb b 0 then Some this
              else
                f ← adF !! iObs;
                accumulate_in_bag adW adY (exp f) iObs k this);
           f ← adF !! iObs;
           track_extremes f k this)
        this
  | Some off =>
      for_loop nTrain 0%nat
        (λ iObs this,
           b ← afInBag !! iObs;
           if Z.eqb b 0 then Some this
           else
             k ← aiNodeAssign !! iObs;
             o ← off !! iObs;
             f ← adF !! iObs;
             accumulate_in_bag adW adY (exp (o + f)) iObs k this)
        this
  end.

(** The second loop: the prediction of every terminal node that exists. *)
Definition fit_nodes (this : CPoisson) (vecpTermNodes : list (option nat))
    (cTermNodes : nat) (nodes : list CNodeTerminal) : option (list CNodeTerminal) :=
  for_loop cTermNodes 0%nat
    (λ iNode nodes,
       p ← vecpTermNodes !! iNode;
       match p with
       | None => Some nodes
       | Some a => fit_node this iNode a nodes
       end)
    nodes.

Definition FitBestConstant
    (this : CPoisson)
    (adY adMisc : list double) (adOffset : option (list double))
    (adW adF adZ : list double) (aiNodeAssign : list nat) (nTrain : nat)
    (vecpTermNodes : list (option nat)) (cTermNodes : nat)
    (cMinObsInNode : nat) (afInBag : list Z) (adFadj : list double)
    (cIdxOff : Z) (nodes : list CNodeTerminal)
    : option (CPoisson * list CNodeTerminal) :=
  let this :=
    {| vecdNum := replicate cTermNodes d0;
       vecdDen := replicate cTermNodes d0;
       vecdMax := replicate cTermNodes (- HUGE_VAL);
       vecdMin := replicate cTermNodes HUGE_VAL |} in
  this ← accumulate_nodes this adY adOffset adW adF aiNodeAssign nTrain afInBag;
  nodes ← fit_nodes this vecpTermNodes cTermNodes nodes;
  Some (this, nodes).

(** ** What the operations are specified to compute *)

(** A sum of doubles, accumulated from [0.0] in the order of the list. *)
Definition dsum (l : list double) : double := fold_left dadd l d0.

(** [offset[i]], read as [0.0] when the offset array is absent. *)
Definition offset_at (adOffset : option (list double)) (i : nat) : double :=
  match adOffset with
  | None => d0
  | Some off => off !!! i
  end.

(** [z[i] = y[i] - exp(f[i] + offset[i])]. *)
Definition working_response (adY : list double) (adOffset : option (list double))
    (adF : list double) (i : nat) : double :=
  adY !!! i - exp (adF !!! i + offset_at adOffset i).

(** [log( Σ weight[i]·y[i] / Σ weight[i]·exp(offset[i]) )], the denominator
    being [Σ weight[i]] when the offset is absent. *)
Definition InitF_num (adY adWeight : list double) (n : nat) : double :=
  dsum (map (λ i, adWeight !!! i * adY !!! i) (seq 0 n)).

Definition InitF_den (adOffset : option (list double)) (adWeight : list double)
    (n : nat) : double :=
  dsum (map (λ i, match adOffset with
                  | None => adWeight !!! i
                  | Some off => adWeight !!! i * exp (off !!! i)
                  end) (seq 0 n)).

Definition InitF_spec (adY : list double) (adOffset : option (list double))
    (adWeight : list double) (n : nat) : double :=
  log (InitF_num adY adWeight n / InitF_den adOffset adWeight n).

(** The indices the loop of [Deviance] visits. *)
Definition in_Deviance_range (cLength : nat) (cIdxOff : Z) (i : nat) : Prop :=
  to_ulong cIdxOff ≤ Z.of_nat i < to_ulong (Z.of_nat cLength + cIdxOff).

(** [eta[i]]: [f[i]], or [f[i] + offset[i]] when there is an offset. *)
Definition eta (adOffset : option (list double)) (adF : list double) (i : nat) : double :=
  match adOffset with
  | None => adF !!! i
  | Some off => adF !!! i + off !!! i
  end.

Definition Deviance_spec
    (adY : list double) (adOffset : option (list double))
    (adWeight adF : list double) (cLength : nat) (cIdxOff : Z) : double :=
  let rng := seq (Z.to_nat cIdxOff) cLength in
  of_int (-2)
    * dsum (map (λ i, adWeight !!! i
                      * (adY !!! i * eta adOffset adF i - exp (eta adOffset adF i))) rng)
    / dsum (map (λ i, adWeight !!! i) rng).

(** The out-of-bag observations, in order. *)
Definition out_of_bag (afInBag : list Z) (nTrain : nat) : list nat :=
  filter (λ i, afInBag !!! i = 0) (seq 0 nTrain).

Definition bag_term (adY : list double) (adOffset : option (list double))
    (adWeight adF adFadj : list double) (dStepSize : double) (i : nat) : double :=
  let dF := adF !!! i + offset_at adOffset i in
  adWeight !!! i
  * (adY !!! i * dStepSize * adFadj !!! i
     - exp (dF + dStepSize * adFadj !!! i) + exp dF).

Definition BagImprovement_spec
    (adY : list double) (adOffset : option (list double))
    (adWeight adF adFadj : list double) (afInBag : list Z)
    (dStepSize : double) (nTrain : nat) : double :=
  dsum (map (bag_term adY adOffset adWeight adF adFadj dStepSize)
          (out_of_bag afInBag nTrain))
  / dsum (map (λ i, adWeight !!! i) (out_of_bag afInBag nTrain)).

(** What Annex F of the C standard fixes about [exp] and [log] and this
    development uses: [exp(±0)] is 1 (F.10.3.1); [log(±0)] is −∞ and [log(x)]
    is NaN for [x < 0] (F.10.3.7). *)
Definition exp_annex_F : Prop := ∀ s, exp (S754_zero s) = of_int 1.

Definition log_annex_F : Prop :=
  (∀ s, log (S754_zero s) = S754_infinity true)
  ∧ (∀ x, dltb x d0 = true → log x = S754_nan).

(** The inputs of an out-of-bag observation that keep its term finite. *)
Definition finite_observation (adY : list double) (adOffset : option (list double))
    (adWeight adF adFadj : list double) (i : nat) : Prop :=
  is_finite (adY !!! i) = true
  ∧ is_finite (adFadj !!! i) = true
  ∧ is_finite (adWeight !!! i) = true
  ∧ is_finite (exp (adF !!! i + offset_at adOffset i)) = true.

(** The observations assigned to node [k] among the first [n], and those of
    them that are in the bag, in order. *)
Definition node_obs (aiNodeAssign : list nat) (n k : nat) : list nat :=
  filter (λ i, aiNodeAssign !!! i = k) (seq 0 n).

Definition node_in_bag (afInBag : list Z) (aiNodeAssign : list nat) (n k : nat)
    : list nat :=
  filter (λ i, afInBag !!! i ≠ 0 ∧ aiNodeAssign !!! i = k) (seq 0 n).

(** The numerator [Σ weight[i]·y[i]] and the denominator
    [Σ weight[i]·exp(f[i] + offset[i])] of a node, over its in-bag
    observations. *)
Definition node_num (adW adY : list double) (afInBag : list Z)
    (aiNodeAssign : list nat) (n k : nat) : double :=
  dsum (map (λ i, adW !!! i * adY !!! i) (node_in_bag afInBag aiNodeAssign n k)).

Definition node_den (adOffset : option (list double)) (adW adF : list double)
    (afInBag : list Z) (aiNodeAssign : list nat) (n k : nat) : double :=
  dsum (map (λ i, adW !!! i * exp (eta adOffset adF i))
          (node_in_bag afInBag aiNodeAssign n k)).

(** The largest and the smallest of a list of doubles, as [R::fmax2] and
    [R::fmin2] compute them, starting from [-HUGE_VAL] and [HUGE_VAL]. *)
Definition dmax_list (l : list double) : double :=
  fold_left (λ acc f, fmax2 f acc) l (- HUGE_VAL).

Definition dmin_list (l : list double) : double :=
  fold_left (λ acc f, fmin2 f acc) l HUGE_VAL.

(** [nodeMax] and [nodeMin]: the extremes of [f] over all the observations
    assigned to the node, in the bag or not. *)
Definition node_max (adF : list double) (aiNodeAssign : list nat) (n k : nat) : double :=
  dmax_list (map (λ i, adF !!! i) (node_obs aiNodeAssign n k)).

Definition node_min (adF : list double) (aiNodeAssign : list nat) (n k : nat) : double :=
  dmin_list (map (λ i, adF !!! i) (node_obs aiNodeAssign n k)).

(** What the clamp is computed from: the extremes of the node without an
    offset, the initial [-HUGE_VAL] and [HUGE_VAL] with one. *)
Definition clamp_max (adOffset : option (list double)) (adF : list double)
    (aiNodeAssign : list nat) (n k : nat) : double :=
  match adOffset with
  | None => node_max adF aiNodeAssign n k
  | Some _ => - HUGE_VAL
  end.

Definition clamp_min (adOffset : option (list double)) (adF : list double)
    (aiNodeAssign : list nat) (n k : nat) : double :=
  match adOffset with
  | None => node_min adF aiNodeAssign n k
  | Some _ => HUGE_VAL
  end.

(** The prediction before the clamp, and the clamp. *)
Definition unclamped (num den : double) : double :=
  if deqb num d0 then - of_int 19
  else if deqb den d0 then d0
  else log (num / den).

Definition clamp (raw mx mn : double) : double :=
  fmax2 (fmin2 raw (of_int 19 - mx)) (of_int (-19) - mn).

(** What the caller owes [FitBestConstant]: arrays covering the [nTrain]
    observations, node assignments below [cTermNodes], a vector of at least
    [cTermNodes] handles, each of them null or the address of a node, no two
    of them the same node. *)
Definition FitBestConstant_pre
    (adY : list double) (adOffset : option (list double)) (adW adF : list double)
    (aiNodeAssign : list nat) (nTrain : nat) (vecpTermNodes : list (option nat))
    (cTermNodes : nat) (afInBag : list Z) (nodes : list CNodeTerminal) : Prop :=
  (nTrain ≤ length adY)%nat
  ∧ (nTrain ≤ length adW)%nat
  ∧ (nTrain ≤ length adF)%nat
  ∧ (nTrain ≤ length afInBag)%nat
  ∧ (nTrain ≤ length aiNodeAssign)%nat
  ∧ (∀ off, adOffset = Some off → (nTrain ≤ length off)%nat)
  ∧ (∀ i, (i < nTrain)%nat → (aiNodeAssign !!! i < cTermNodes)%nat)
  ∧ (cTermNodes ≤ length vecpTermNodes)%nat
  ∧ (∀ i a, (i < cTermNodes)%nat → vecpTermNodes !! i = Some (Some a) →
            (a < length nodes)%nat)
  ∧ (∀ i i' a, (i < cTermNodes)%nat → (i' < cTermNodes)%nat →
               vecpTermNodes !! i = Some (Some a) →
               vecpTermNodes !! i' = Some (Some a) → i = i').

(** The prediction [FitBestConstant] leaves in node [k]. *)
Definition node_prediction
    (adY : list double) (adOffset : option (list double)) (adW adF : list double)
    (aiNodeAssign : list nat) (nTrain : nat) (afInBag : list Z) (k : nat) : double :=
  clamp (unclamped (node_num adW adY afInBag aiNodeAssign nTrain k)
           (node_den adOffset adW adF afInBag aiNodeAssign nTrain k))
    (clamp_max adOffset adF aiNodeAssign nTrain k)
    (clamp_min adOffset adF aiNodeAssign nTrain k).

(** The scratch vectors once the first [j] observations are accumulated. *)
Definition scratch_at
    (adY : list double) (adOffset : option (list double)) (adW adF : list double)
    (aiNodeAssign : list nat) (cTermNodes : nat) (afInBag : list Z) (j : nat)
    : CPoisson :=
  {| vecdNum := (λ k, node_num adW adY afInBag aiNodeAssign j k) <$> seq 0 cTermNodes;
     vecdDen := (λ k, node_den adOffset adW adF afInBag aiNodeAssign j k)
                  <$> seq 0 cTermNodes;
     vecdMax := (λ k, clamp_max adOffset adF aiNodeAssign j k) <$> seq 0 cTermNodes;
     vecdMin := (λ k, clamp_min adOffset adF aiNodeAssign j k) <$> seq 0 cTermNodes |}.

(** What the caller owes [FitBestConstant] when handles may be shared:
    [FitBestConstant_pre] without the demand that no two handles designate
    the same node. *)
Definition FitBestConstant_pre_shared
    (adY : list double) (adOffset : option (list double)) (adW adF : list double)
    (aiNodeAssign : list nat) (nTrain : nat) (vecpTermNodes : list (option nat))
    (cTermNodes : nat) (afInBag : list Z) (nodes : list CNodeTerminal) : Prop :=
  (nTrain ≤ length adY)%nat
  ∧ (nTrain ≤ length adW)%nat
  ∧ (nTrain ≤ length adF)%nat
  ∧ (nTrain ≤ length afInBag)%nat
  ∧ (nTrain ≤ length aiNodeAssign)%nat
  ∧ (∀ off, adOffset = Some off → (nTrain ≤ length off)%nat)
  ∧ (∀ i, (i < nTrain)%nat → (aiNodeAssign !!! i < cTermNodes)%nat)
  ∧ (cTermNodes ≤ length vecpTermNodes)%nat
  ∧ (∀ i a, (i < cTermNodes)%nat → vecpTermNodes !! i = Some (Some a) →
            (a < length nodes)%nat).

(** Two offset arguments that [Deviance] cannot tell apart at index [i]:
    both absent, or both present with the same entry. *)
Definition same_offset_at (adOffset adOffset' : option (list double)) (i : nat) : Prop :=
  match adOffset, adOffset' with
  | None, None => True
  | Some off, Some off' => off !! i = off' !! i
  | _, _ => False
  end.

(** ** Facts of binary64 arithmetic *)

Lemma dadd_comm (x y : double) : (x + y = y + x)%D.
Proof.
  unfold dadd.
  destruct x as [[]|[]| |sx mx ex], y as [[]|[]| |sy my ey]; simpl; try reflexivity.
  rewrite (Z.min_comm ey ex). f_equal. apply Z.add_comm.
Qed.

(** Swapping the operands of a comparison swaps its outcome. *)
Lemma SFcompare_antisym (x y : double) : SFcompare y x = CompOpp <$> SFcompare x y.
Proof.
  destruct x as [[]|[]| |[] mx ex], y as [[]|[]| |[] my ey]; simpl; try reflexivity.
  - rewrite (Z.compare_antisym ex ey). destruct (ex ?= ey); simpl; try reflexivity.
    rewrite Pos.compare_cont_antisym. simpl. by rewrite CompOpp_involutive.
  - rewrite (Z.compare_antisym ex ey). destruct (ex ?= ey); simpl; try reflexivity.
    by rewrite Pos.compare_cont_antisym.
Qed.

Lemma SFcompare_refl (x : double) : ISNAN x = false → SFcompare x x = Some Eq.
Proof.
  destruct x as [[]|[]| |[] mx ex]; simpl; try done; intros _.
  - by rewrite Z.compare_refl, Pos.compare_cont_refl.
  - by rewrite Z.compare_refl, Pos.compare_cont_refl.
Qed.

Lemma SFcompare_nan_iff (x y : double) :
  SFcompare x y = None ↔ ISNAN x || ISNAN y = true.
Proof.
  destruct x as [[]|[]| |[] mx ex], y as [[]|[]| |[] my ey]; simpl; split; congruence.
Qed.

Lemma dltb_irrefl (x : double) : dltb x x = false.
Proof.
  unfold dltb, SFltb. destruct (ISNAN x) eqn:Hx.
  - by destruct x.
  - by rewrite SFcompare_refl.
Qed.

Lemma dltb_asym (x y : double) : dltb x y = true → dltb y x = false.
Proof.
  unfold dltb, SFltb. rewrite (SFcompare_antisym x y).
  by destruct (SFcompare x y) as [[]|].
Qed.

Lemma dltb_nan_r (x : double) : dltb x S754_nan = false.
Proof. by destruct x. Qed.

(** Among numbers, "not below" is "above or equal". *)
Lemma dleb_of_not_dltb (x y : double) :
  ISNAN x = false → ISNAN y = false → dltb x y = false → dleb y x = true.
Proof.
  unfold dltb, dleb, SFltb, SFleb. intros Hx Hy. rewrite (SFcompare_antisym y x).
  destruct (SFcompare y x) as [[]|] eqn:Hc; simpl; try done.
  apply SFcompare_nan_iff in Hc. rewrite Hx, Hy in Hc. done.
Qed.

Lemma dadd_nan (x y : double) : ISNAN x || ISNAN y = true → (x + y)%D = S754_nan.
Proof. destruct x; try done; destruct y; try done; discriminate. Qed.

Lemma finite_compare_Lt (e1 e2 : Z) (m1 m2 : positive) :
  match e1 ?= e2 with Lt => Lt | Gt => Gt | Eq => Pos.compare_cont Eq m1 m2 end = Lt
  ↔ e1 < e2 ∨ (e1 = e2 ∧ (m1 < m2)%positive).
Proof.
  destruct (Z.compare_spec e1 e2) as [He|He|He].
  - change (Pos.compare_cont Eq m1 m2 = Lt) with (m1 < m2)%positive. lia.
  - split; [lia | done].
  - split; [done | lia].
Qed.

Lemma finite_compare_opp_Lt (e1 e2 : Z) (m1 m2 : positive) :
  match e1 ?= e2 with
  | Lt => Gt | Gt => Lt | Eq => CompOpp (Pos.compare_cont Eq m1 m2)
  end = Lt
  ↔ e2 < e1 ∨ (e1 = e2 ∧ (m2 < m1)%positive).
Proof.
  destruct (Z.compare_spec e1 e2) as [He|He|He].
  - change (Pos.compare_cont Eq m1 m2) with (m1 ?= m2)%positive.
    destruct (Pos.compare_spec m1 m2); simpl; split; (done || lia).
  - split; [done | lia].
  - split; [lia | done].
Qed.

Lemma dltb_spec (x y : double) :
  dltb x y = true ↔ ISNAN x = false ∧ ISNAN y = false ∧ key_lt x y.
Proof.
  unfold dltb, SFltb, key_lt.
  destruct x as [[]|[]| |[] m1 e1], y as [[]|[]| |[] m2 e2]; simpl;
    try (split; [done | lia]); try (split; [intros _; repeat split; lia | done]);
    try (split; [done | intros (? & ? & ?); done]).
  - destruct (match e1 ?= e2 with Lt => Gt | Gt => Lt | Eq => CompOpp (Pos.compare_cont Eq m1 m2) end) eqn:Hc.
    + split; [done |]. intros (_ & _ & Hk).
      assert (e2 < e1 ∨ (e1 = e2 ∧ (m2 < m1)%positive)) as Hk' by lia.
      apply finite_compare_opp_Lt in Hk'. congruence.
    + split; [|done]. intros _. apply finite_compare_opp_Lt in Hc. repeat split; lia.
    + split; [done |]. intros (_ & _ & Hk).
      assert (e2 < e1 ∨ (e1 = e2 ∧ (m2 < m1)%positive)) as Hk' by lia.
      apply finite_compare_opp_Lt in Hk'. congruence.
  - destruct (match e1 ?= e2 with Lt => Lt | Gt => Gt | Eq => Pos.compare_cont Eq m1 m2 end) eqn:Hc.
    + split; [done |]. intros (_ & _ & Hk).
      assert (e1 < e2 ∨ (e1 = e2 ∧ (m1 < m2)%positive)) as Hk' by lia.
      apply finite_compare_Lt in Hk'. congruence.
    + split; [|done]. intros _. apply finite_compare_Lt in Hc. repeat split; lia.
    + split; [done |]. intros (_ & _ & Hk).
      assert (e1 < e2 ∨ (e1 = e2 ∧ (m1 < m2)%positive)) as Hk' by lia.
      apply finite_compare_Lt in Hk'. congruence.
Qed.

Lemma dltb_false_spec (x y : double) :
  dltb x y = false ↔ ISNAN x = true ∨ ISNAN y = true ∨ ¬ key_lt x y.
Proof.
  destruct (dltb x y) eqn:Hlt.
  - apply dltb_spec in Hlt as (Hx & Hy & Hk). split; [done |].
    intros [?|[?|?]]; congruence.
  - split; [|done]. intros _.
    destruct (ISNAN x) eqn:Hx; [by left |].
    destruct (ISNAN y) eqn:Hy; [by right; left |].
    right; right. intros Hk. assert (dltb x y = true) by by apply dltb_spec. congruence.
Qed.

Lemma dltb_trans x y z : dltb x y = true → dltb y z = true → dltb x z = true.
Proof.
  rewrite !dltb_spec. unfold key_lt. intros (Hx & Hy & H1) (_ & Hz & H2).
  repeat split; try done. lia.
Qed.

Lemma dltb_lt_le_trans x y z :
  ISNAN z = false → dltb x y = true → dltb z y = false → dltb x z = true.
Proof.
  rewrite dltb_false_spec, !dltb_spec. unfold key_lt.
  intros Hz (Hx & Hy & H1) [?|[?|H2]]; try congruence.
  repeat split; try done. lia.
Qed.

Lemma dltb_le_lt_trans x y z :
  ISNAN x = false → dltb y x = false → dltb y z = true → dltb x z = true.
Proof.
  rewrite dltb_false_spec, !dltb_spec. unfold key_lt.
  intros Hx [?|[?|H1]] (Hy & Hz & H2); try congruence.
  repeat split; try done. lia.
Qed.

(** Dividing by a zero never gives a finite value: the quotient is an
    infinity, or NaN for [0/0] and [NaN/0]. *)
Lemma ddiv_zero_not_finite (x y : double) :
  is_zero y = true → is_finite (x / y)%D = false.
Proof. destruct y; try discriminate. intros _. by destruct x. Qed.

Lemma ddiv_zero_l (x y : double) :
  is_zero x = true → is_zero y = false → ISNAN y = false → is_zero (x / y)%D = true.
Proof. destruct x; try discriminate. intros _. destruct y; try discriminate; done. Qed.

Lemma dmul_finite_zero (x y : double) :
  is_finite x = true → is_zero y = true → is_zero (x * y)%D = true.
Proof. intros Hx. destruct y; try discriminate. intros _. destruct x; try discriminate; done. Qed.

Lemma dmul_zero_finite (x y : double) :
  is_zero x = true → is_finite y = true → is_zero (x * y)%D = true.
Proof. destruct x; try discriminate. intros _. destruct y; try discriminate; done. Qed.

Lemma dadd_zero_zero (x y : double) :
  is_zero x = true → is_zero y = true → is_zero (x + y)%D = true.
Proof.
  destruct x as [[]| | |]; try discriminate; intros _;
    destruct y as [[]| | |]; try discriminate; done.
Qed.

(** [(z - e) + e] is a zero when [z] is a zero and [e] is finite. *)
Lemma dsub_dadd_cancel (z e : double) :
  is_zero z = true → is_finite e = true → is_zero (z - e + e)%D = true.
Proof.
  destruct z as [sz| | |]; try done. intros _.
  destruct e as [se| | |se me ee]; try done.
  - by destruct sz, se.
  - intros _. unfold dsub, dadd. simpl. rewrite Z.min_id.
    destruct se; simpl.
    + by rewrite Z.add_opp_diag_r.
    + by rewrite Z.add_opp_diag_l.
Qed.

(** A sum of zeros is a zero. *)
Lemma fold_dadd_zeros (l : list double) (a : double) :
  is_zero a = true → Forall (λ x, is_zero x = true) l →
  is_zero (fold_left dadd l a) = true.
Proof.
  intros Ha Hl. revert a Ha. induction Hl as [|x l Hx Hl IH]; intros a Ha; simpl; [done |].
  apply IH. by apply dadd_zero_zero.
Qed.

(** [R::fmin2] against the default upper clamp and [R::fmax2] against the
    default lower clamp change nothing. *)
Lemma fmin2_pinf (x : double) : fmin2 x (S754_infinity false) = x.
Proof. by destruct x as [[]|[]| |[] m e]. Qed.

Lemma fmax2_ninf (x : double) : fmax2 x (S754_infinity true) = x.
Proof. by destruct x as [[]|[]| |[] m e]. Qed.

(** The result of [R::fmax2] is never below its second argument, ... *)
Lemma fmax2_not_below (x y : double) : dltb (fmax2 x y) y = false.
Proof.
  unfold fmax2. destruct (ISNAN x || ISNAN y) eqn:Hnan.
  - by rewrite dadd_nan.
  - destruct (dltb x y) eqn:Hlt; [apply dltb_irrefl | done].
Qed.

(** ... and the result of [R::fmin2] never above it. *)
Lemma fmin2_not_above (x y : double) : dltb y (fmin2 x y) = false.
Proof.
  unfold fmin2. destruct (ISNAN x || ISNAN y) eqn:Hnan.
  - rewrite dadd_nan by done. apply dltb_nan_r.
  - destruct (dltb x y) eqn:Hlt; [by apply dltb_asym | apply dltb_irrefl].
Qed.

(** Clamping from below keeps a value under an upper bound that is not
    itself under the lower one. *)
Lemma fmax2_keeps_upper (x lo hi : double) :
  dltb hi x = false → dltb hi lo = false → dltb hi (fmax2 x lo) = false.
Proof.
  intros Hx Hlo. unfold fmax2. destruct (ISNAN x || ISNAN lo) eqn:Hnan.
  - rewrite dadd_nan by done. apply dltb_nan_r.
  - by destruct (dltb x lo).
Qed.

Lemma fmax2_nan (x y : double) : ISNAN (fmax2 x y) = ISNAN x || ISNAN y.
Proof.
  unfold fmax2. destruct (ISNAN x || ISNAN y) eqn:Hnan.
  - by rewrite dadd_nan.
  - apply orb_false_elim in Hnan as [Hx Hy]. by destruct (dltb x y).
Qed.

Lemma fmin2_nan (x y : double) : ISNAN (fmin2 x y) = ISNAN x || ISNAN y.
Proof.
  unfold fmin2. destruct (ISNAN x || ISNAN y) eqn:Hnan.
  - by rewrite dadd_nan.
  - apply orb_false_elim in Hnan as [Hx Hy]. by destruct (dltb x y).
Qed.

Lemma exp_add_zero (x z : double) :
  exp_annex_F → is_zero z = true → exp (x + z) = exp x.
Proof.
  intros Hexp. destruct z as [sz| | |]; try discriminate. intros _.
  destruct x as [sx| | |]; try done.
  unfold dadd; simpl. destruct sx, sz; by rewrite !Hexp.
Qed.

(** Adding the absent offset, [0.0], to [f] does not change a term of the
    deviance. *)
Lemma deviance_term_add_zero (y f : double) :
  exp_annex_F → y * (f + d0) - exp (f + d0) = y * f - exp f.
Proof.
  intros Hexp. destruct f as [[]| | |]; try done.
  change (S754_zero true + d0) with (S754_zero false). rewrite !Hexp.
  change (of_int 1) with (S754_finite false 4503599627370496 (-52)).
  by destruct y.
Qed.

(** ** Loops *)

Lemma for_loop_inv {S : Type} (Inv : nat → S → Prop) (body : nat → S → option S)
    (n i : nat) (s : S) :
  Inv i s →
  (∀ j t, (i ≤ j < i + n)%nat → Inv j t → ∃ t', body j t = Some t' ∧ Inv (Datatypes.S j) t') →
  ∃ s', for_loop n i body s = Some s' ∧ Inv (i + n)%nat s'.
Proof.
  revert i s. induction n as [|n IH]; intros i s Hi Hstep; simpl.
  - exists s. by rewrite Nat.add_0_r.
  - destruct (Hstep i s) as (t & -> & Ht); [lia | done |]. simpl.
    destruct (IH (Datatypes.S i) t) as (s' & -> & Hs'); [done | |].
    + intros j u Hj. apply Hstep. lia.
    + exists s'. split; [done |]. by replace (i + Datatypes.S n)%nat with (Datatypes.S i + n)%nat by lia.
Qed.

(** A loop whose body never fails is a fold over the index range. *)
Lemma for_loop_fold {S : Type} (g : S → nat → S) (body : nat → S → option S)
    (n i : nat) (s : S) :
  (∀ j t, (i ≤ j < i + n)%nat → body j t = Some (g t j)) →
  for_loop n i body s = Some (fold_left g (seq i n) s).
Proof.
  revert i s. induction n as [|n IH]; intros i s Hbody; simpl; [done |].
  rewrite Hbody by lia. simpl. apply IH. intros j t Hj. apply Hbody. lia.
Qed.

(** Two loops whose bodies agree on the index range agree. *)
Lemma for_loop_ext {S : Type} (body body' : nat → S → option S) (n i : nat) (s : S) :
  (∀ j t, (i ≤ j < i + n)%nat → body j t = body' j t) →
  for_loop n i body s = for_loop n i body' s.
Proof.
  revert i s. induction n as [|n IH]; intros i s Hbody; simpl; [done |].
  rewrite Hbody by lia. destruct (body' i s) as [t|]; simpl; [|done].
  apply IH. intros j u Hj. apply Hbody. lia.
Qed.

(** A loop that takes [F j] to [F (j + 1)] at every step ends in [F n]. *)
Lemma for_loop_chain {S : Type} (F : nat → S) (body : nat → S → option S) (n : nat) :
  (∀ j, (j < n)%nat → body j (F j) = Some (F (Datatypes.S j))) →
  for_loop n 0%nat body (F 0%nat) = Some (F n).
Proof.
  intros Hstep.
  destruct (for_loop_inv (λ j s, s = F j) body n 0%nat (F 0%nat)) as (s' & -> & ->);
    [done | | done].
  intros j t Hj ->. exists (F (Datatypes.S j)). split; [apply Hstep; lia | done].
Qed.

(** Two accumulators updated side by side are two folds. *)
Lemma fold_left_pair {A B C : Type} (g : A → C → A) (h : B → C → B)
    (l : list C) (a : A) (b : B) :
  fold_left (λ '(a, b) c, (g a c, h b c)) l (a, b) = (fold_left g l a, fold_left h l b).
Proof. revert a b. induction l as [|c l IH]; intros a b; simpl; [done | apply IH]. Qed.

Lemma dsum_map_fold {C : Type} (v : C → double) (l : list C) (a : double) :
  fold_left (λ acc c, acc + v c) l a = fold_left dadd (map v l) a.
Proof. revert a. induction l as [|c l IH]; intros a; simpl; [done | apply IH]. Qed.

Lemma lookup_total_lt (l : list double) (i : nat) :
  (i < length l)%nat → l !! i = Some (l !!! i).
Proof. intros H. by apply list_lookup_lookup_total_lt. Qed.

(** ** [ComputeWorkingResponse] *)

Lemma load_or_total (adOffset : option (list double)) (i n : nat) :
  (∀ off, adOffset = Some off → (n ≤ length off)%nat) →
  (i < n)%nat →
  load_or adOffset i d0 = Some (offset_at adOffset i).
Proof.
  intros Hoff Hi. destruct adOffset as [off|]; simpl; [|done].
  apply lookup_total_lt. specialize (Hoff off eq_refl). lia.
Qed.

(** [ComputeWorkingResponse] on arrays of the announced sizes. *)
Lemma ComputeWorkingResponse_run
    (adY adMisc : list double) (adOffset : option (list double))
    (adF adZ adWeight : list double) (afInBag : list Z) (nTrain : nat) (cIdxOff : Z) :
  (nTrain ≤ length adY)%nat →
  (nTrain ≤ length adF)%nat →
  (nTrain ≤ length adZ)%nat →
  (∀ off, adOffset = Some off → (nTrain ≤ length off)%nat) →
  ∃ adZ',
    ComputeWorkingResponse adY adMisc adOffset adF adZ adWeight afInBag nTrain cIdxOff
      = Some adZ'
    ∧ length adZ' = length adZ
    ∧ (∀ i, (i < nTrain)%nat → adZ' !! i = Some (working_response adY adOffset adF i))
    ∧ (∀ i, (nTrain ≤ i)%nat → adZ' !! i = adZ !! i)
    ∧ (∀ adMisc' adWeight' afInBag' cIdxOff',
         ComputeWorkingResponse adY adMisc' adOffset adF adZ adWeight' afInBag' nTrain cIdxOff'
           = Some adZ').
Proof.
  intros HY HF HZ Hoff.
  pose (Inv := λ (k : nat) (z : list double),
    length z = length adZ
    ∧ (∀ i, (i < k)%nat → z !! i = Some (working_response adY adOffset adF i))
    ∧ (∀ i, (k ≤ i)%nat → z !! i = adZ !! i)).
  destruct (for_loop_inv Inv
    (λ i adZ, f ← adF !! i; o ← load_or adOffset i d0;
       let dF := f + o in y ← adY !! i; store adZ i (y - exp dF))
    nTrain 0%nat adZ) as (adZ' & Hrun & Hlen & Hlo & Hhi).
  - unfold Inv. split; [done |]. split; [intros; lia | done].
  - intros j z Hj (Hlen & Hlo & Hhi).
    rewrite (lookup_total_lt adF j) by lia. simpl.
    rewrite (load_or_total adOffset j nTrain) by (done || lia). simpl.
    rewrite (lookup_total_lt adY j) by lia. simpl.
    unfold store. rewrite (lookup_total_lt z j) by lia. simpl.
    eexists; split; [done |]. repeat split.
    + by rewrite length_insert.
    + intros i Hi. destruct (decide (i = j)) as [->|Hne].
      * rewrite list_lookup_insert_eq by lia. done.
      * rewrite list_lookup_insert_ne by done. apply Hlo. lia.
    + intros i Hi. rewrite list_lookup_insert_ne by lia. apply Hhi. lia.
  - exists adZ'. unfold ComputeWorkingResponse. repeat split; try done.
Qed.

(** C4. [ComputeWorkingResponse] returns, and for every [i] below [nTrain]
    the output is [z[i] = y[i] - exp(f[i] + offset[i])], the offset read as
    [0.0] when the array is absent; the entries from [nTrain] on are left as
    they were; whatever is passed for the weights and the in-bag flags (and
    for [adMisc], [cIdxOff]) the result is the same. *)
Theorem ComputeWorkingResponse_spec
    (adY adMisc : list double) (adOffset : option (list double))
    (adF adZ adWeight : list double) (afInBag : list Z) (nTrain : nat) (cIdxOff : Z) :
  (nTrain ≤ length adY)%nat →
  (nTrain ≤ length adF)%nat →
  (nTrain ≤ length adZ)%nat →
  (∀ off, adOffset = Some off → (nTrain ≤ length off)%nat) →
  ∃ adZ',
    ComputeWorkingResponse adY adMisc adOffset adF adZ adWeight afInBag nTrain cIdxOff
      = Some adZ'
    ∧ length adZ' = length adZ
    ∧ (∀ i, (i < nTrain)%nat → adZ' !! i = Some (working_response adY adOffset adF i))
    ∧ (∀ i, (nTrain ≤ i)%nat → adZ' !! i = adZ !! i)
    ∧ (∀ adMisc' adWeight' afInBag' cIdxOff',
         ComputeWorkingResponse adY adMisc' adOffset adF adZ adWeight' afInBag' nTrain cIdxOff'
           = Some adZ').
Proof. apply ComputeWorkingResponse_run. Qed.

(** ** [InitF] *)

Lemma InitF_eq
    (adY adMisc : list double) (adOffset : option (list double))
    (adWeight : list double) (cLength : nat) :
  (cLength ≤ length adY)%nat →
  (cLength ≤ length adWeight)%nat →
  (∀ off, adOffset = Some off → (cLength ≤ length off)%nat) →
  InitF adY adMisc adOffset adWeight cLength
    = Some (InitF_spec adY adOffset adWeight cLength).
Proof.
  intros HY HW Hoff. unfold InitF, InitF_spec, InitF_num, InitF_den, dsum.
  destruct adOffset as [off|].
  - specialize (Hoff off eq_refl).
    rewrite (for_loop_fold
      (λ '(dSum, dDenom) i,
         (dSum + adWeight !!! i * adY !!! i, dDenom + adWeight !!! i * exp (off !!! i)))).
    + simpl. rewrite (fold_left_pair
        (λ a i, a + adWeight !!! i * adY !!! i)
        (λ b i, b + adWeight !!! i * exp (off !!! i))).
      rewrite (dsum_map_fold (λ i, adWeight !!! i * adY !!! i)).
      by rewrite (dsum_map_fold (λ i, adWeight !!! i * exp (off !!! i))).
    + intros j [a b] Hj.
      rewrite (lookup_total_lt adWeight j), (lookup_total_lt adY j),
        (lookup_total_lt off j) by lia. done.
  - rewrite (for_loop_fold
      (λ '(dSum, dDenom) i, (dSum + adWeight !!! i * adY !!! i, dDenom + adWeight !!! i))).
    + simpl. rewrite (fold_left_pair
        (λ a i, a + adWeight !!! i * adY !!! i) (λ b i, b + adWeight !!! i)).
      rewrite (dsum_map_fold (λ i, adWeight !!! i * adY !!! i)).
      by rewrite (dsum_map_fold (λ i, adWeight !!! i)).
    + intros j [a b] Hj.
      rewrite (lookup_total_lt adWeight j), (lookup_total_lt adY j) by lia. done.
Qed.

(** C5. For arrays holding at least [cLength] entries, [InitF] returns
    [log( (Σ weight[i]·y[i]) / (Σ weight[i]·exp(offset[i])) )], the
    denominator being [Σ weight[i]] when the offset is absent; the sums run
    over [0 ≤ i < cLength] and are accumulated in that order from [0.0]. *)
Theorem InitF_correct
    (adY adMisc : list double) (adOffset : option (list double))
    (adWeight : list double) (cLength : nat) :
  (1 ≤ cLength)%nat →
  (cLength ≤ length adY)%nat →
  (cLength ≤ length adWeight)%nat →
  (∀ off, adOffset = Some off → (cLength ≤ length off)%nat) →
  InitF adY adMisc adOffset adWeight cLength
    = Some (log (dsum (map (λ i, adWeight !!! i * adY !!! i) (seq 0 cLength))
                 / dsum (map (λ i, match adOffset with
                                   | None => adWeight !!! i
                                   | Some off => adWeight !!! i * exp (off !!! i)
                                   end) (seq 0 cLength)))).
Proof. intros _. apply InitF_eq. Qed.

(** ** [Deviance] *)

Lemma Deviance_loop_range (cLength : nat) (cIdxOff : Z) (j : nat) :
  (Z.to_nat (to_ulong cIdxOff) ≤ j
   < Z.to_nat (to_ulong cIdxOff)
     + Z.to_nat (to_ulong (Z.of_nat cLength + cIdxOff) - to_ulong cIdxOff))%nat →
  in_Deviance_range cLength cIdxOff j.
Proof.
  unfold in_Deviance_range, to_ulong. intros Hj.
  pose proof (Z.mod_pos_bound cIdxOff (2 ^ 64) eq_refl). lia.
Qed.

(** With a valid window, the conversions to [unsigned long] change nothing. *)
Lemma Deviance_bounds (cLength : nat) (cIdxOff : Z) :
  0 ≤ cIdxOff → cIdxOff + Z.of_nat cLength < 2 ^ 64 →
  Z.to_nat (to_ulong cIdxOff) = Z.to_nat cIdxOff
  ∧ Z.to_nat (to_ulong (Z.of_nat cLength + cIdxOff) - to_ulong cIdxOff) = cLength.
Proof.
  intros H0 Hlt. unfold to_ulong.
  rewrite (Z.mod_small cIdxOff), (Z.mod_small (Z.of_nat cLength + cIdxOff)) by lia.
  lia.
Qed.

Lemma Deviance_eq
    (adY adMisc : list double) (adOffset : option (list double))
    (adWeight adF : list double) (cLength : nat) (cIdxOff : Z) :
  0 ≤ cIdxOff →
  cIdxOff + Z.of_nat cLength < 2 ^ 64 →
  (Z.to_nat cIdxOff + cLength ≤ length adY)%nat →
  (Z.to_nat cIdxOff + cLength ≤ length adWeight)%nat →
  (Z.to_nat cIdxOff + cLength ≤ length adF)%nat →
  (∀ off, adOffset = Some off → (Z.to_nat cIdxOff + cLength ≤ length off)%nat) →
  Deviance adY adMisc adOffset adWeight adF cLength cIdxOff
    = Some (Deviance_spec adY adOffset adWeight adF cLength cIdxOff).
Proof.
  intros H0 Hlt HY HW HF Hoff. unfold Deviance, Deviance_spec, dsum, eta.
  destruct (Deviance_bounds cLength cIdxOff H0 Hlt) as [-> ->].
  destruct adOffset as [off|].
  - specialize (Hoff off eq_refl).
    rewrite (for_loop_fold
      (λ '(dL, dW) i,
         (dL + adWeight !!! i
               * (adY !!! i * (adF !!! i + off !!! i) - exp (adF !!! i + off !!! i)),
          dW + adWeight !!! i))).
    + simpl. rewrite (fold_left_pair
        (λ a i, a + adWeight !!! i
                    * (adY !!! i * (adF !!! i + off !!! i) - exp (adF !!! i + off !!! i)))
        (λ b i, b + adWeight !!! i)).
      rewrite (dsum_map_fold (λ i, adWeight !!! i
                    * (adY !!! i * (adF !!! i + off !!! i) - exp (adF !!! i + off !!! i)))).
      by rewrite (dsum_map_fold (λ i, adWeight !!! i)).
    + intros j [a b] Hj.
      rewrite (lookup_total_lt adWeight j), (lookup_total_lt adY j),
        (lookup_total_lt off j), (lookup_total_lt adF j) by lia.
      simpl. by rewrite (dadd_comm (off !!! j)).
  - rewrite (for_loop_fold
      (λ '(dL, dW) i,
         (dL + adWeight !!! i * (adY !!! i * adF !!! i - exp (adF !!! i)),
          dW + adWeight !!! i))).
    + simpl. rewrite (fold_left_pair
        (λ a i, a + adWeight !!! i * (adY !!! i * adF !!! i - exp (adF !!! i)))
        (λ b i, b + adWeight !!! i)).
      rewrite (dsum_map_fold
        (λ i, adWeight !!! i * (adY !!! i * adF !!! i - exp (adF !!! i)))).
      by rewrite (dsum_map_fold (λ i, adWeight !!! i)).
    + intros j [a b] Hj.
      rewrite (lookup_total_lt adWeight j), (lookup_total_lt adY j),
        (lookup_total_lt adF j) by lia. done.
Qed.

(** C6. For a window [[cIdxOff, cIdxOff + cLength)] inside the arrays,
    [Deviance] returns [-2 · Σ weight[i]·(y[i]·eta[i] − exp(eta[i]))]
    divided by [Σ weight[i]], both sums over the window, in order, where
    [eta[i]] is [f[i] + offset[i]], and [f[i]] when there is no offset; with
    [exp(±0) = 1], taking the absent offset as [0.0] and adding it gives the
    same value. *)
Theorem Deviance_correct
    (adY adMisc : list double) (adOffset : option (list double))
    (adWeight adF : list double) (cLength : nat) (cIdxOff : Z) :
  0 ≤ cIdxOff →
  cIdxOff + Z.of_nat cLength < 2 ^ 64 →
  (Z.to_nat cIdxOff + cLength ≤ length adY)%nat →
  (Z.to_nat cIdxOff + cLength ≤ length adWeight)%nat →
  (Z.to_nat cIdxOff + cLength ≤ length adF)%nat →
  (∀ off, adOffset = Some off → (Z.to_nat cIdxOff + cLength ≤ length off)%nat) →
  let rng := seq (Z.to_nat cIdxOff) cLength in
  Deviance adY adMisc adOffset adWeight adF cLength cIdxOff
    = Some (of_int (-2)
            * dsum (map (λ i, adWeight !!! i
                              * (adY !!! i * eta adOffset adF i
                                 - exp (eta adOffset adF i))) rng)
            / dsum (map (λ i, adWeight !!! i) rng))
  ∧ (exp_annex_F →
     Deviance adY adMisc adOffset adWeight adF cLength cIdxOff
       = Some (of_int (-2)
               * dsum (map (λ i, adWeight !!! i
                                 * (adY !!! i * (adF !!! i + offset_at adOffset i)
                                    - exp (adF !!! i + offset_at adOffset i))) rng)
               / dsum (map (λ i, adWeight !!! i) rng))).
Proof.
  intros H0 Hlt HY HW HF Hoff rng.
  rewrite Deviance_eq by done. split; [done |].
  intros Hexp. unfold Deviance_spec. fold rng. do 4 f_equal.
  apply map_ext. intros i. unfold eta, offset_at.
  destruct adOffset as [off|]; [done |]. by rewrite deviance_term_add_zero.
Qed.

(** [f] and [offset] enter [Deviance] only through the sums
    [offset[i] + f[i]] over the window. *)
Lemma Deviance_sum_only
    (adY adMisc : list double) (off off' : list double)
    (adWeight adF adF' : list double) (cLength : nat) (cIdxOff : Z) :
  (∀ i, in_Deviance_range cLength cIdxOff i →
        (o ← off !! i; f ← adF !! i; Some (o + f))
        = (o ← off' !! i; f ← adF' !! i; Some (o + f))) →
  Deviance adY adMisc (Some off') adWeight adF' cLength cIdxOff
  = Deviance adY adMisc (Some off) adWeight adF cLength cIdxOff.
Proof.
  intros Hsum. unfold Deviance. f_equal. apply for_loop_ext.
  intros j [dL dW] Hj. apply Deviance_loop_range in Hj. specialize (Hsum j Hj).
  destruct (adWeight !! j) as [w|]; simpl; [|done].
  destruct (adY !! j) as [y|]; simpl; [|done].
  destruct (off !! j) as [o|], (off' !! j) as [o'|]; simpl in *;
    destruct (adF !! j) as [f|], (adF' !! j) as [f'|]; simpl in *;
    try done.
  injection Hsum as Hs. by rewrite Hs.
Qed.

(** C7, as amended. With an offset, replacing every [f[i]] by [f[i] + s]
    and every [offset[i]] by [offset[i] - s] (or [f[i] - s] and
    [offset[i] + s]) leaves the deviance unchanged provided the shift is
    exact on the window, that is, the shifted values add up in [double]
    arithmetic to what the original ones add up to. *)
Theorem Deviance_shift_exact
    (adY adMisc off adWeight adF : list double) (s : double)
    (cLength : nat) (cIdxOff : Z) :
  ((∀ i o f, in_Deviance_range cLength cIdxOff i →
             off !! i = Some o → adF !! i = Some f →
             (o - s) + (f + s) = o + f) →
   Deviance adY adMisc (Some ((λ o, o - s) <$> off)) adWeight
     ((λ f, f + s) <$> adF) cLength cIdxOff
   = Deviance adY adMisc (Some off) adWeight adF cLength cIdxOff)
  ∧
  ((∀ i o f, in_Deviance_range cLength cIdxOff i →
             off !! i = Some o → adF !! i = Some f →
             (o + s) + (f - s) = o + f) →
   Deviance adY adMisc (Some ((λ o, o + s) <$> off)) adWeight
     ((λ f, f - s) <$> adF) cLength cIdxOff
   = Deviance adY adMisc (Some off) adWeight adF cLength cIdxOff).
Proof.
  split; intros Hexact; apply Deviance_sum_only; intros i Hi;
    rewrite !list_lookup_fmap;
    destruct (off !! i) as [o|] eqn:Ho; simpl; try done;
    destruct (adF !! i) as [f|] eqn:Hf; simpl; try done;
    by rewrite (Hexact i o f).
Qed.

(** ** [BagImprovement] *)

Lemma fold_left_cond_pair (P : nat → Prop) `{!∀ i, Decision (P i)}
    (t u : nat → double) (l : list nat) (a b : double) :
  fold_left (λ '(a, b) i, if decide (P i) then (a + t i, b + u i) else (a, b)) l (a, b)
  = (fold_left dadd (map t (filter P l)) a, fold_left dadd (map u (filter P l)) b).
Proof.
  revert a b. induction l as [|i l IH]; intros a b; simpl; [done |].
  rewrite filter_cons. destruct (decide (P i)); simpl; apply IH.
Qed.

Lemma BagImprovement_eq
    (adY adMisc : list double) (adOffset : option (list double))
    (adWeight adF adFadj : list double) (afInBag : list Z)
    (dStepSize : double) (nTrain : nat) :
  (nTrain ≤ length adY)%nat →
  (nTrain ≤ length adWeight)%nat →
  (nTrain ≤ length adF)%nat →
  (nTrain ≤ length adFadj)%nat →
  (nTrain ≤ length afInBag)%nat →
  (∀ off, adOffset = Some off → (nTrain ≤ length off)%nat) →
  BagImprovement adY adMisc adOffset adWeight adF adFadj afInBag dStepSize nTrain
    = Some (BagImprovement_spec adY adOffset adWeight adF adFadj afInBag dStepSize nTrain).
Proof.
  intros HY HW HF HA HB Hoff. unfold BagImprovement, BagImprovement_spec, dsum, out_of_bag.
  rewrite (for_loop_fold
    (λ '(r, w) i,
       if decide (afInBag !!! i = 0)
       then (r + bag_term adY adOffset adWeight adF adFadj dStepSize i, w + adWeight !!! i)
       else (r, w))).
  - simpl. rewrite (fold_left_cond_pair (λ i, afInBag !!! i = 0)
      (bag_term adY adOffset adWeight adF adFadj dStepSize) (λ i, adWeight !!! i)).
    done.
  - intros j [r w] Hj.
    rewrite (list_lookup_lookup_total_lt afInBag j) by lia. simpl.
    destruct (Z.eqb_spec (afInBag !!! j) 0) as [Hb|Hb];
      destruct (decide (afInBag !!! j = 0)); try done.
    rewrite (lookup_total_lt adF j) by lia. simpl.
    rewrite (load_or_total adOffset j nTrain) by (done || lia). simpl.
    rewrite (lookup_total_lt adWeight j), (lookup_total_lt adY j),
      (lookup_total_lt adFadj j) by lia. done.
Qed.

Lemma bag_term_zero_step
    (adY : list double) (adOffset : option (list double))
    (adWeight adF adFadj : list double) (dStepSize : double) (i : nat) :
  exp_annex_F → is_zero dStepSize = true →
  finite_observation adY adOffset adWeight adF adFadj i →
  is_zero (bag_term adY adOffset adWeight adF adFadj dStepSize i) = true.
Proof.
  intros Hexp Hs (Hy & Ha & Hw & He). unfold bag_term. cbv zeta.
  rewrite exp_add_zero by (done || by apply dmul_zero_finite).
  apply dmul_finite_zero; [done |].
  apply dsub_dadd_cancel; [|done].
  apply dmul_zero_finite; [|done]. by apply dmul_finite_zero.
Qed.

(** C3, as amended. With a zero step size [BagImprovement] returns a zero
    ([0.0] or [-0.0], both [== 0.0]) when the out-of-bag weights sum to a
    number other than zero and every out-of-bag observation has finite [y],
    [fAdj], weight and [exp(f + offset)]. *)
Theorem BagImprovement_zero_step
    (adY adMisc : list double) (adOffset : option (list double))
    (adWeight adF adFadj : list double) (afInBag : list Z)
    (dStepSize : double) (nTrain : nat) :
  exp_annex_F →
  is_zero dStepSize = true →
  (nTrain ≤ length adY)%nat →
  (nTrain ≤ length adWeight)%nat →
  (nTrain ≤ length adF)%nat →
  (nTrain ≤ length adFadj)%nat →
  (nTrain ≤ length afInBag)%nat →
  (∀ off, adOffset = Some off → (nTrain ≤ length off)%nat) →
  Forall (finite_observation adY adOffset adWeight adF adFadj)
    (out_of_bag afInBag nTrain) →
  is_zero (dsum (map (λ i, adWeight !!! i) (out_of_bag afInBag nTrain))) = false →
  ISNAN (dsum (map (λ i, adWeight !!! i) (out_of_bag afInBag nTrain))) = false →
  ∃ v, BagImprovement adY adMisc adOffset adWeight adF adFadj afInBag dStepSize nTrain
         = Some v
       ∧ is_zero v = true ∧ deqb v d0 = true.
Proof.
  intros Hexp Hs HY HW HF HA HB Hoff Hfin HWz HWn.
  rewrite BagImprovement_eq by done. eexists; split; [done |].
  assert (is_zero (BagImprovement_spec adY adOffset adWeight adF adFadj afInBag
                     dStepSize nTrain) = true) as Hz.
  { unfold BagImprovement_spec. apply ddiv_zero_l; [|done..].
    apply fold_dadd_zeros; [done |]. apply Forall_map.
    eapply Forall_impl; [exact Hfin |]. intros i Hi. by apply bag_term_zero_step. }
  split; [done |].
  destruct (BagImprovement_spec _ _ _ _ _ _ _ _); by try discriminate.
Qed.

Lemma out_of_bag_none (afInBag : list Z) (nTrain : nat) :
  (∀ i, (i < nTrain)%nat → afInBag !!! i ≠ 0) → out_of_bag afInBag nTrain = [].
Proof.
  intros Hin. unfold out_of_bag.
  assert (Forall (λ i, ¬ afInBag !!! i = 0) (seq 0 nTrain)) as Hall.
  { apply Forall_forall. intros i Hi. apply Hin. apply elem_of_seq in Hi. lia. }
  induction Hall as [|i l Hi Hl IH]; [done |].
  rewrite filter_cons. by destruct (decide (afInBag !!! i = 0)).
Qed.

(** C9. [InitF], [Deviance] and [BagImprovement] run to completion on arrays
    of the announced sizes; nothing is trapped: when the argument of the
    logarithm in [InitF] is a zero or negative, when the weights summed by
    [Deviance] add up to a zero, or when the out-of-bag weights summed by
    [BagImprovement] add up to a zero, the value returned is not finite (an
    infinity or NaN); with every observation in the bag, [BagImprovement]
    returns NaN. *)
Theorem non_finite_results_are_returned
    (adY adMisc : list double) (adOffset : option (list double))
    (adWeight adF adFadj : list double) (afInBag : list Z) (dStepSize : double)
    (cLengthI cLengthD nTrain : nat) (cIdxOff : Z) :
  log_annex_F →
  ((cLengthI ≤ length adY)%nat →
   (cLengthI ≤ length adWeight)%nat →
   (∀ off, adOffset = Some off → (cLengthI ≤ length off)%nat) →
   ∃ v, InitF adY adMisc adOffset adWeight cLengthI = Some v
        ∧ (let arg := InitF_num adY adWeight cLengthI
                      / InitF_den adOffset adWeight cLengthI in
           is_zero arg = true ∨ dltb arg d0 = true → is_finite v = false))
  ∧
  (0 ≤ cIdxOff →
   cIdxOff + Z.of_nat cLengthD < 2 ^ 64 →
   (Z.to_nat cIdxOff + cLengthD ≤ length adY)%nat →
   (Z.to_nat cIdxOff + cLengthD ≤ length adWeight)%nat →
   (Z.to_nat cIdxOff + cLengthD ≤ length adF)%nat →
   (∀ off, adOffset = Some off → (Z.to_nat cIdxOff + cLengthD ≤ length off)%nat) →
   ∃ v, Deviance adY adMisc adOffset adWeight adF cLengthD cIdxOff = Some v
        ∧ (is_zero (dsum (map (λ i, adWeight !!! i) (seq (Z.to_nat cIdxOff) cLengthD)))
             = true →
           is_finite v = false))
  ∧
  ((nTrain ≤ length adY)%nat →
   (nTrain ≤ length adWeight)%nat →
   (nTrain ≤ length adF)%nat →
   (nTrain ≤ length adFadj)%nat →
   (nTrain ≤ length afInBag)%nat →
   (∀ off, adOffset = Some off → (nTrain ≤ length off)%nat) →
   ∃ v, BagImprovement adY adMisc adOffset adWeight adF adFadj afInBag dStepSize nTrain
          = Some v
        ∧ (is_zero (dsum (map (λ i, adWeight !!! i) (out_of_bag afInBag nTrain))) = true →
           is_finite v = false)
        ∧ ((∀ i, (i < nTrain)%nat → afInBag !!! i ≠ 0) → v = S754_nan)).
Proof.
  intros [Hlog0 Hlogneg]. split; [|split].
  - intros HY HW Hoff. rewrite InitF_eq by done. eexists; split; [done |].
    intros arg Harg. unfold InitF_spec. fold arg. destruct Harg as [Hz|Hneg].
    + destruct arg; try discriminate. by rewrite Hlog0.
    + by rewrite Hlogneg.
  - intros H0 Hlt HY HW HF Hoff. rewrite Deviance_eq by done.
    eexists; split; [done |]. unfold Deviance_spec. cbv zeta.
    apply ddiv_zero_not_finite.
  - intros HY HW HF HA HB Hoff. rewrite BagImprovement_eq by done.
    eexists; split; [done |]. unfold BagImprovement_spec. split.
    + apply ddiv_zero_not_finite.
    + intros Hin. by rewrite out_of_bag_none.
Qed.

(** ** [FitBestConstant] *)

Lemma filter_seq_S (P : nat → Prop) `{!∀ i, Decision (P i)} (j : nat) :
  filter P (seq 0 (Datatypes.S j))
  = filter P (seq 0 j) ++ (if decide (P j) then [j] else []).
Proof.
  rewrite seq_S, filter_app. by f_equal.
Qed.

Lemma dsum_snoc (g : nat → double) (l : list nat) (j : nat) :
  dsum (map g (l ++ [j])) = dsum (map g l) + g j.
Proof. unfold dsum. by rewrite map_app, fold_left_app. Qed.

Lemma dmax_list_snoc (g : nat → double) (l : list nat) (j : nat) :
  dmax_list (map g (l ++ [j])) = fmax2 (g j) (dmax_list (map g l)).
Proof. unfold dmax_list. by rewrite map_app, fold_left_app. Qed.

Lemma dmin_list_snoc (g : nat → double) (l : list nat) (j : nat) :
  dmin_list (map g (l ++ [j])) = fmin2 (g j) (dmin_list (map g l)).
Proof. unfold dmin_list. by rewrite map_app, fold_left_app. Qed.

Lemma lookup_fmap_seq (g : nat → double) (n k : nat) :
  (k < n)%nat → (g <$> seq 0 n) !! k = Some (g k).
Proof. intros Hk. by rewrite list_lookup_fmap, lookup_seq_lt. Qed.

Lemma fmap_seq_ext (g h : nat → double) (n : nat) :
  (∀ k, (k < n)%nat → h k = g k) → g <$> seq 0 n = h <$> seq 0 n.
Proof.
  intros Hgh. apply list_fmap_ext. intros i k Hk.
  apply lookup_seq in Hk as [-> Hk]. symmetry. by apply Hgh.
Qed.

Lemma fmap_seq_const (g : nat → double) (n : nat) (x : double) :
  (∀ k, g k = x) → g <$> seq 0 n = replicate n x.
Proof.
  intros Hg. rewrite (const_fmap g (seq 0 n) x) by (intros; apply Hg).
  by rewrite length_seq.
Qed.

Lemma insert_fmap_seq (g h : nat → double) (n k : nat) (v : double) :
  (k < n)%nat → h k = v → (∀ k', k' ≠ k → h k' = g k') →
  <[k := v]> (g <$> seq 0 n) = h <$> seq 0 n.
Proof.
  intros Hk Hv Hne. apply list_eq. intros i.
  destruct (decide (i = k)) as [->|Hik].
  - rewrite list_lookup_insert_eq by (by rewrite length_fmap, length_seq).
    by rewrite lookup_fmap_seq, Hv.
  - rewrite list_lookup_insert_ne by done.
    rewrite !list_lookup_fmap. destruct (seq 0 n !! i) as [i'|] eqn:Hi; [|done].
    apply lookup_seq in Hi as [-> Hi]. simpl. by rewrite Hne.
Qed.

Lemma fit_node_at (this : CPoisson) (iNode a : nat) (nodes : list CNodeTerminal)
    (num den mx mn : double) :
  vecdNum this !! iNode = Some num →
  vecdDen this !! iNode = Some den →
  vecdMax this !! iNode = Some mx →
  vecdMin this !! iNode = Some mn →
  (a < length nodes)%nat →
  fit_node this iNode a nodes
  = Some (<[a := {| dPrediction := clamp (unclamped num den) mx mn |}]> nodes).
Proof.
  intros Hnum Hden Hmx Hmn Ha.
  destruct (lookup_lt_is_Some_2 nodes a Ha) as [nd Hnd].
  assert (∀ v, set_dPrediction nodes a v = Some (<[a := {| dPrediction := v |}]> nodes)) as Hset.
  { intros v. unfold set_dPrediction, store. by rewrite Hnd. }
  assert (∀ v w, set_dPrediction (<[a := {| dPrediction := v |}]> nodes) a w
                 = Some (<[a := {| dPrediction := w |}]> nodes)) as Hset'.
  { intros v w. unfold set_dPrediction, store.
    rewrite list_lookup_insert_eq by done. simpl. by rewrite list_insert_insert_eq. }
  assert (∀ v, get_dPrediction (<[a := {| dPrediction := v |}]> nodes) a = Some v) as Hget.
  { intros v. unfold get_dPrediction. by rewrite list_lookup_insert_eq. }
  unfold fit_node, unclamped, clamp. rewrite Hnum. simpl.
  destruct (deqb num d0).
  - rewrite Hset. simpl. rewrite Hget, Hmx. simpl. rewrite Hset'. simpl.
    rewrite Hget, Hmn. simpl. by rewrite Hset'.
  - rewrite Hden. simpl. destruct (deqb den d0).
    + rewrite Hset. simpl. rewrite Hget, Hmx. simpl. rewrite Hset'. simpl.
      rewrite Hget, Hmn. simpl. by rewrite Hset'.
    + rewrite Hset. simpl. rewrite Hget, Hmx. simpl. rewrite Hset'. simpl.
      rewrite Hget, Hmn. simpl. by rewrite Hset'.
Qed.

Section FitBestConstant_run.

Variables (adY adMisc : list double) (adOffset : option (list double)).
Variables (adW adF adZ : list double) (aiNodeAssign : list nat) (nTrain : nat).
Variables (vecpTermNodes : list (option nat)) (cTermNodes cMinObsInNode : nat).
Variables (afInBag : list Z) (adFadj : list double) (cIdxOff : Z).
Variable nodes : list CNodeTerminal.

Hypothesis Hpre :
  FitBestConstant_pre adY adOffset adW adF aiNodeAssign nTrain vecpTermNodes
    cTermNodes afInBag nodes.

Local Abbreviation sc_at j :=
  (scratch_at adY adOffset adW adF aiNodeAssign cTermNodes afInBag j).

Lemma node_num_S (j k : nat) :
  node_num adW adY afInBag aiNodeAssign (Datatypes.S j) k
  = if decide (afInBag !!! j ≠ 0 ∧ aiNodeAssign !!! j = k)
    then node_num adW adY afInBag aiNodeAssign j k + adW !!! j * adY !!! j
    else node_num adW adY afInBag aiNodeAssign j k.
Proof.
  unfold node_num, node_in_bag. rewrite filter_seq_S.
  destruct (decide _); [apply dsum_snoc | by rewrite app_nil_r].
Qed.

Lemma node_den_S (j k : nat) :
  node_den adOffset adW adF afInBag aiNodeAssign (Datatypes.S j) k
  = if decide (afInBag !!! j ≠ 0 ∧ aiNodeAssign !!! j = k)
    then node_den adOffset adW adF afInBag aiNodeAssign j k
         + adW !!! j * exp (eta adOffset adF j)
    else node_den adOffset adW adF afInBag aiNodeAssign j k.
Proof.
  unfold node_den, node_in_bag. rewrite filter_seq_S.
  destruct (decide _); [apply dsum_snoc | by rewrite app_nil_r].
Qed.

Lemma node_max_S (j k : nat) :
  node_max adF aiNodeAssign (Datatypes.S j) k
  = if decide (aiNodeAssign !!! j = k)
    then fmax2 (adF !!! j) (node_max adF aiNodeAssign j k)
    else node_max adF aiNodeAssign j k.
Proof.
  unfold node_max, node_obs. rewrite filter_seq_S.
  destruct (decide _); [apply dmax_list_snoc | by rewrite app_nil_r].
Qed.

Lemma node_min_S (j k : nat) :
  node_min adF aiNodeAssign (Datatypes.S j) k
  = if decide (aiNodeAssign !!! j = k)
    then fmin2 (adF !!! j) (node_min adF aiNodeAssign j k)
    else node_min adF aiNodeAssign j k.
Proof.
  unfold node_min, node_obs. rewrite filter_seq_S.
  destruct (decide _); [apply dmin_list_snoc | by rewrite app_nil_r].
Qed.

(** An in-bag observation moves the two sums of its node. *)
Lemma accumulate_in_bag_at (j : nat) (this : CPoisson) :
  (j < nTrain)%nat → afInBag !!! j ≠ 0 →
  vecdNum this = vecdNum (sc_at j) →
  vecdDen this = vecdDen (sc_at j) →
  accumulate_in_bag adW adY (exp (eta adOffset adF j)) j (aiNodeAssign !!! j) this
  = Some (set_vecdDen (vecdDen (sc_at (Datatypes.S j)))
            (set_vecdNum (vecdNum (sc_at (Datatypes.S j))) this)).
Proof.
  destruct Hpre as (HY & HW & _ & _ & _ & _ & Hassign & _).
  intros Hj Hb Hnum Hden. unfold accumulate_in_bag.
  rewrite (lookup_total_lt adW j), (lookup_total_lt adY j) by lia. simpl.
  rewrite Hnum, Hden. simpl.
  unfold store. rewrite !lookup_fmap_seq by (by apply Hassign). simpl.
  do 2 f_equal.
  - f_equal. apply insert_fmap_seq; [by apply Hassign | |].
    + rewrite node_den_S. by rewrite decide_True.
    + intros k' Hk'. rewrite node_den_S. rewrite decide_False; [done | by intros [_ ?]].
  - f_equal. apply insert_fmap_seq; [by apply Hassign | |].
    + rewrite node_num_S. by rewrite decide_True.
    + intros k' Hk'. rewrite node_num_S. rewrite decide_False; [done | by intros [_ ?]].
Qed.

(** An observation out of the bag leaves the sums of every node alone. *)
Lemma sums_out_of_bag (j : nat) :
  afInBag !!! j = 0 →
  vecdNum (sc_at (Datatypes.S j)) = vecdNum (sc_at j)
  ∧ vecdDen (sc_at (Datatypes.S j)) = vecdDen (sc_at j).
Proof.
  intros Hb. split; simpl; symmetry; apply fmap_seq_ext; intros k _.
  - rewrite node_num_S. rewrite decide_False; [done | by intros [? _]].
  - rewrite node_den_S. rewrite decide_False; [done | by intros [? _]].
Qed.

(** Without an offset every observation moves the extremes of its node. *)
Lemma track_extremes_at (j : nat) (this : CPoisson) :
  adOffset = None →
  (j < nTrain)%nat →
  vecdMax this = vecdMax (sc_at j) →
  vecdMin this = vecdMin (sc_at j) →
  track_extremes (adF !!! j) (aiNodeAssign !!! j) this
  = Some (set_vecdMin (vecdMin (sc_at (Datatypes.S j)))
            (set_vecdMax (vecdMax (sc_at (Datatypes.S j))) this)).
Proof.
  destruct Hpre as (_ & _ & _ & _ & _ & _ & Hassign & _).
  intros Hoff Hj Hmax Hmin. unfold track_extremes.
  rewrite Hmax, Hmin. simpl. rewrite Hoff. simpl.
  unfold store. rewrite !lookup_fmap_seq by (by apply Hassign). simpl.
  do 2 f_equal.
  - f_equal. apply insert_fmap_seq; [by apply Hassign | |].
    + rewrite node_min_S. by rewrite decide_True.
    + intros k' Hk'. rewrite node_min_S. by rewrite decide_False.
  - f_equal. apply insert_fmap_seq; [by apply Hassign | |].
    + rewrite node_max_S. by rewrite decide_True.
    + intros k' Hk'. rewrite node_max_S. by rewrite decide_False.
Qed.

Lemma scratch_at_0 :
  sc_at 0
  = {| vecdNum := replicate cTermNodes d0;
       vecdDen := replicate cTermNodes d0;
       vecdMax := replicate cTermNodes (- HUGE_VAL);
       vecdMin := replicate cTermNodes HUGE_VAL |}.
Proof.
  unfold scratch_at. f_equal; apply fmap_seq_const; intros k; try done.
  - unfold clamp_max. by destruct adOffset.
  - unfold clamp_min. by destruct adOffset.
Qed.

(** The first loop ends with the sums and the clamp data of every node. *)
Lemma accumulate_nodes_eq :
  accumulate_nodes (sc_at 0) adY adOffset adW adF aiNodeAssign nTrain afInBag
  = Some (sc_at nTrain).
Proof.
  pose proof Hpre as (HY & HW & HF & HB & HA & Hoff & Hassign & _).
  enough (∀ ao, adOffset = ao →
            accumulate_nodes (sc_at 0) adY ao adW adF aiNodeAssign nTrain afInBag
            = Some (sc_at nTrain)) as Hcase by by apply Hcase.
  intros ao Hao. unfold accumulate_nodes. destruct ao as [off|].
  - specialize (Hoff off Hao). apply for_loop_chain. intros j Hj.
    rewrite (list_lookup_lookup_total_lt afInBag j) by lia. simpl.
    destruct (Z.eqb_spec (afInBag !!! j) 0) as [Hb|Hb].
    + f_equal. destruct (sums_out_of_bag j Hb) as [Hn Hd].
      unfold scratch_at in *. simpl in *. rewrite Hn, Hd.
      unfold clamp_max, clamp_min. by rewrite Hao.
    + rewrite (list_lookup_lookup_total_lt aiNodeAssign j) by lia. simpl.
      rewrite (lookup_total_lt off j), (lookup_total_lt adF j) by lia. simpl.
      rewrite (dadd_comm (off !!! j)).
      replace (adF !!! j + off !!! j) with (eta adOffset adF j)
        by (unfold eta; by rewrite Hao).
      rewrite accumulate_in_bag_at by done. f_equal.
      unfold scratch_at, set_vecdDen, set_vecdNum, clamp_max, clamp_min. simpl.
      by rewrite Hao.
  - apply for_loop_chain. intros j Hj.
    rewrite (list_lookup_lookup_total_lt afInBag j) by lia. simpl.
    rewrite (list_lookup_lookup_total_lt aiNodeAssign j) by lia. simpl.
    destruct (Z.eqb_spec (afInBag !!! j) 0) as [Hb|Hb]; simpl.
    + rewrite (lookup_total_lt adF j) by lia. simpl.
      rewrite track_extremes_at by done. f_equal.
      destruct (sums_out_of_bag j Hb) as [Hn Hd].
      unfold scratch_at in *. simpl in *. by rewrite Hn, Hd.
    + rewrite (lookup_total_lt adF j) by lia. simpl.
      replace (adF !!! j) with (eta adOffset adF j) at 1
        by (unfold eta; by rewrite Hao).
      rewrite accumulate_in_bag_at by done. simpl.
      rewrite track_extremes_at by done. done.
Qed.

(** The second loop writes the prediction of every node that exists, and
    nothing else. *)
Lemma fit_nodes_eq :
  ∃ nodes',
    fit_nodes (sc_at nTrain) vecpTermNodes cTermNodes nodes = Some nodes'
    ∧ length nodes' = length nodes
    ∧ (∀ iNode a, (iNode < cTermNodes)%nat →
         vecpTermNodes !! iNode = Some (Some a) →
         nodes' !! a
         = Some {| dPrediction :=
                     node_prediction adY adOffset adW adF aiNodeAssign nTrain afInBag
                       iNode |})
    ∧ (∀ a, (∀ iNode, (iNode < cTermNodes)%nat →
                      vecpTermNodes !! iNode ≠ Some (Some a)) →
            nodes' !! a = nodes !! a).
Proof.
  pose proof Hpre as (_ & _ & _ & _ & _ & _ & _ & Hvec & Hvalid & Hdistinct).
  pose (Inv := λ (j : nat) (ns : list CNodeTerminal),
    length ns = length nodes
    ∧ (∀ i a, (i < j)%nat → vecpTermNodes !! i = Some (Some a) →
         ns !! a
         = Some {| dPrediction :=
                     node_prediction adY adOffset adW adF aiNodeAssign nTrain afInBag i |})
    ∧ (∀ a, (∀ i, (i < j)%nat → vecpTermNodes !! i ≠ Some (Some a)) →
            ns !! a = nodes !! a)).
  destruct (for_loop_inv Inv
    (λ iNode ns, p ← vecpTermNodes !! iNode;
       match p with
       | None => Some ns
       | Some a => fit_node (sc_at nTrain) iNode a ns
       end) cTermNodes 0%nat nodes) as (nodes' & Hrun & Hinv).
  - unfold Inv. split; [done |]. split; [intros; lia | done].
  - intros j ns Hj (Hlen & Hdone & Hframe).
    destruct (lookup_lt_is_Some_2 vecpTermNodes j) as [p Hp]; [lia |].
    rewrite Hp. simpl. destruct p as [a|].
    + assert (a < length nodes)%nat as Ha by (apply (Hvalid j); [lia | done]).
      rewrite (fit_node_at _ j a ns
        (node_num adW adY afInBag aiNodeAssign nTrain j)
        (node_den adOffset adW adF afInBag aiNodeAssign nTrain j)
        (clamp_max adOffset adF aiNodeAssign nTrain j)
        (clamp_min adOffset adF aiNodeAssign nTrain j));
        try (simpl; apply lookup_fmap_seq; lia); [|lia].
      eexists; split; [done |]. unfold Inv. split; [by rewrite length_insert |]. split.
      * intros i a' Hi Hi'. destruct (decide (i = j)) as [->|Hij].
        -- assert (a' = a) as -> by congruence.
           by rewrite list_lookup_insert_eq by lia.
        -- assert (a ≠ a') as Hne.
           { intros ->. apply Hij. apply (Hdistinct i j a'); (lia || done). }
           rewrite list_lookup_insert_ne by done. apply Hdone; [lia | done].
      * intros a' Hfree.
        assert (a ≠ a') as Hne by (intros ->; by apply (Hfree j); [lia |]).
        rewrite list_lookup_insert_ne by done. apply Hframe.
        intros i Hi. apply Hfree. lia.
    + eexists; split; [done |]. unfold Inv. split; [done |]. split.
      * intros i a' Hi Hi'. destruct (decide (i = j)) as [->|Hij]; [congruence |].
        apply Hdone; [lia | done].
      * intros a' Hfree. apply Hframe. intros i Hi. apply Hfree. lia.
  - exists nodes'. destruct Hinv as (Hlen & Hdone & Hframe). simpl in *.
    repeat split; try done.
Qed.

(** [FitBestConstant] on well-formed arguments: it returns, the scratch
    vectors hold the sums and the clamp data of every node, every node with
    a handle holds its clamped prediction, and every other node is left as it
    was. *)
Lemma FitBestConstant_run (this : CPoisson) :
  ∃ nodes',
    FitBestConstant this adY adMisc adOffset adW adF adZ aiNodeAssign nTrain
      vecpTermNodes cTermNodes cMinObsInNode afInBag adFadj cIdxOff nodes
    = Some (sc_at nTrain, nodes')
    ∧ length nodes' = length nodes
    ∧ (∀ iNode a, (iNode < cTermNodes)%nat →
         vecpTermNodes !! iNode = Some (Some a) →
         get_dPrediction nodes' a
         = Some (node_prediction adY adOffset adW adF aiNodeAssign nTrain afInBag iNode))
    ∧ (∀ a, (∀ iNode, (iNode < cTermNodes)%nat →
                      vecpTermNodes !! iNode ≠ Some (Some a)) →
            nodes' !! a = nodes !! a).
Proof.
  destruct fit_nodes_eq as (nodes' & Hfit & Hlen & Hdone & Hframe).
  exists nodes'. unfold FitBestConstant. cbv zeta.
  rewrite <- scratch_at_0, accumulate_nodes_eq. simpl. rewrite Hfit. simpl.
  repeat split; try done.
  intros iNode a Hi Ha. unfold get_dPrediction. by rewrite (Hdone iNode a Hi Ha).
Qed.

End FitBestConstant_run.

(** [dmax_list] and [dmin_list] bound every element of a list of numbers. *)
Lemma fmax2_not_below_l (x y : double) : dltb (fmax2 x y) x = false.
Proof.
  unfold fmax2. destruct (ISNAN x || ISNAN y) eqn:Hnan.
  - by rewrite dadd_nan.
  - destruct (dltb x y) eqn:Hlt; [by apply dltb_asym | apply dltb_irrefl].
Qed.

Lemma fmin2_not_above_l (x y : double) : dltb x (fmin2 x y) = false.
Proof.
  unfold fmin2. destruct (ISNAN x || ISNAN y) eqn:Hnan.
  - rewrite dadd_nan by done. apply dltb_nan_r.
  - destruct (dltb x y) eqn:Hlt; [apply dltb_irrefl | done].
Qed.

Lemma fold_fmax2_upper (l : list double) (a : double) :
  ISNAN a = false → Forall (λ x, ISNAN x = false) l →
  let r := fold_left (λ acc f, fmax2 f acc) l a in
  ISNAN r = false ∧ dltb r a = false ∧ Forall (λ x, dltb r x = false) l.
Proof.
  intros Ha Hl. revert a Ha.
  induction Hl as [|x l Hx Hl IH]; intros a Ha; simpl.
  - split; [done |]. split; [apply dltb_irrefl | constructor].
  - assert (ISNAN (fmax2 x a) = false) as Ha' by (by rewrite fmax2_nan, Hx, Ha).
    destruct (IH (fmax2 x a) Ha') as (Hr & Hra & Hall).
    assert (∀ y, dltb (fmax2 x a) y = false →
                 dltb (fold_left (λ acc f, fmax2 f acc) l (fmax2 x a)) y = false) as Hup.
    { intros y Hy.
      destruct (dltb (fold_left (λ acc f, fmax2 f acc) l (fmax2 x a)) y) eqn:Hlt; [|done].
      rewrite (dltb_lt_le_trans _ y (fmax2 x a)) in Hra; done. }
    split; [done |]. split; [apply Hup, fmax2_not_below |].
    constructor; [apply Hup, fmax2_not_below_l | done].
Qed.

Lemma fold_fmin2_lower (l : list double) (a : double) :
  ISNAN a = false → Forall (λ x, ISNAN x = false) l →
  let r := fold_left (λ acc f, fmin2 f acc) l a in
  ISNAN r = false ∧ dltb a r = false ∧ Forall (λ x, dltb x r = false) l.
Proof.
  intros Ha Hl. revert a Ha.
  induction Hl as [|x l Hx Hl IH]; intros a Ha; simpl.
  - split; [done |]. split; [apply dltb_irrefl | constructor].
  - assert (ISNAN (fmin2 x a) = false) as Ha' by (by rewrite fmin2_nan, Hx, Ha).
    destruct (IH (fmin2 x a) Ha') as (Hr & Hra & Hall).
    assert (∀ y, ISNAN y = false → dltb y (fmin2 x a) = false →
                 dltb y (fold_left (λ acc f, fmin2 f acc) l (fmin2 x a)) = false) as Hlo.
    { intros y Hy Hya.
      destruct (dltb y (fold_left (λ acc f, fmin2 f acc) l (fmin2 x a))) eqn:Hlt; [|done].
      rewrite (dltb_le_lt_trans (fmin2 x a) y) in Hra; done. }
    split; [done |]. split; [by apply Hlo, fmin2_not_above |].
    constructor; [by apply Hlo, fmin2_not_above_l | done].
Qed.

(** When no [f] of the node is NaN, no observation assigned to the node has
    an [f] above [nodeMax] or below [nodeMin]. *)
Lemma node_extremes_bound (adF : list double) (aiNodeAssign : list nat) (n k i : nat) :
  Forall (λ j, ISNAN (adF !!! j) = false) (node_obs aiNodeAssign n k) →
  (i < n)%nat → aiNodeAssign !!! i = k →
  dltb (node_max adF aiNodeAssign n k) (adF !!! i) = false
  ∧ dltb (adF !!! i) (node_min adF aiNodeAssign n k) = false.
Proof.
  intros Hnan Hi Hk.
  assert (i ∈ node_obs aiNodeAssign n k) as Hin.
  { unfold node_obs. apply list_elem_of_filter. split; [done |].
    apply elem_of_seq. lia. }
  assert (Forall (λ x, ISNAN x = false)
            (map (λ j, adF !!! j) (node_obs aiNodeAssign n k))) as Hnan'
    by (by apply Forall_map).
  assert (In (adF !!! i) (map (λ j, adF !!! j) (node_obs aiNodeAssign n k))) as Hin'
    by (apply (in_map (λ j, adF !!! j)); by apply list_elem_of_In).
  apply list_elem_of_In in Hin'.
  destruct (fold_fmax2_upper _ (- HUGE_VAL) eq_refl Hnan') as (_ & _ & Hmax).
  destruct (fold_fmin2_lower _ HUGE_VAL eq_refl Hnan') as (_ & _ & Hmin).
  rewrite Forall_forall in Hmax, Hmin. split; [by apply Hmax | by apply Hmin].
Qed.

(** Two numbers neither of which is below the other are the same double,
    unless they are zeros. *)
Lemma dltb_neither_eq (x y : double) :
  ISNAN x = false → ISNAN y = false → is_zero x = false →
  dltb x y = false → dltb y x = false → x = y.
Proof.
  intros Hx Hy Hz. rewrite !dltb_false_spec.
  intros [?|[?|H1]] [?|[?|H2]]; try congruence.
  unfold key_lt in H1, H2.
  destruct x as [[]|[]| |[] m1 e1], y as [[]|[]| |[] m2 e2];
    try discriminate; simpl in H1, H2; try lia; try reflexivity.
  - assert (e1 = e2) as -> by lia. assert (m1 = m2) as -> by lia. reflexivity.
  - assert (e1 = e2) as -> by lia. assert (m1 = m2) as -> by lia. reflexivity.
Qed.

Lemma dltb_neither_zero (x y : double) :
  is_zero x = true → ISNAN y = false →
  dltb x y = false → dltb y x = false → is_zero y = true.
Proof.
  intros Hx Hy. rewrite !dltb_false_spec.
  intros [?|[?|H1]] [?|[?|H2]]; try congruence; try (by destruct x).
  unfold key_lt in H1, H2.
  destruct x as [[]|[]| |[] m1 e1]; try discriminate;
    destruct y as [[]|[]| |[] m2 e2]; try discriminate; simpl in H1, H2;
    try lia; reflexivity.
Qed.

(** The comparisons do not tell the two zeros apart. *)
Lemma dltb_zero_l (x x' y : double) :
  is_zero x = true → is_zero x' = true → dltb x y = dltb x' y.
Proof. destruct x; try discriminate. destruct x'; try discriminate. done. Qed.

(** The clamp leaves alone a value that lies within the two bounds; of a
    zero it may change the sign. *)
Lemma clamp_idle (v mx mn : double) :
  ISNAN v = false → is_zero v = false →
  ISNAN (of_int 19 - mx) = false → ISNAN (of_int (-19) - mn) = false →
  dltb (of_int 19 - mx) v = false →
  dltb v (of_int (-19) - mn) = false →
  clamp v mx mn = v.
Proof.
  intros Hv Hz HU HL Hup Hlo. unfold clamp.
  assert (fmin2 v (of_int 19 - mx) = v) as ->.
  { unfold fmin2. rewrite Hv, HU. change (false || false) with false. cbv iota.
    destruct (dltb v (of_int 19 - mx)) eqn:Hlt; [done |].
    symmetry. by apply dltb_neither_eq. }
  unfold fmax2. rewrite Hv, HL. change (false || false) with false. cbv iota.
  by rewrite Hlo.
Qed.

Lemma clamp_idle_zero (v mx mn : double) :
  is_zero v = true →
  ISNAN (of_int 19 - mx) = false → ISNAN (of_int (-19) - mn) = false →
  dltb (of_int 19 - mx) v = false →
  dltb v (of_int (-19) - mn) = false →
  is_zero (clamp v mx mn) = true.
Proof.
  intros Hz HU HL Hup Hlo. unfold clamp.
  assert (ISNAN v = false) as Hv by (by destruct v).
  assert (is_zero (fmin2 v (of_int 19 - mx)) = true) as Hz'.
  { unfold fmin2. rewrite Hv, HU. change (false || false) with false. cbv iota.
    destruct (dltb v (of_int 19 - mx)) eqn:Hlt; [done |].
    by apply (dltb_neither_zero v). }
  unfold fmax2. rewrite HL.
  assert (ISNAN (fmin2 v (of_int 19 - mx)) = false) as ->
    by (by destruct (fmin2 v (of_int 19 - mx))).
  change (false || false) with false. cbv iota.
  by rewrite (dltb_zero_l _ v), Hlo.
Qed.

(** With the default bounds the clamp changes nothing. *)
Lemma clamp_default (raw : double) : clamp raw (- HUGE_VAL) HUGE_VAL = raw.
Proof.
  unfold clamp.
  change (of_int 19 - - HUGE_VAL) with (S754_infinity false).
  change (of_int (-19) - HUGE_VAL) with (S754_infinity true).
  by rewrite fmin2_pinf, fmax2_ninf.
Qed.

(** The lower clamp is applied last, so it always holds. *)
Lemma clamp_lower (raw mx mn : double) :
  dltb (clamp raw mx mn) (of_int (-19) - mn) = false
  ∧ (ISNAN (clamp raw mx mn) = false →
     dleb (of_int (-19) - mn) (clamp raw mx mn) = true).
Proof.
  unfold clamp. split; [apply fmax2_not_below |].
  intros Hnan. pose proof Hnan as Hnan'. rewrite fmax2_nan in Hnan'.
  apply orb_false_elim in Hnan' as [_ HL].
  apply dleb_of_not_dltb; [done | done | apply fmax2_not_below].
Qed.

(** The upper clamp survives the lower one unless the two bounds conflict. *)
Lemma clamp_upper (raw mx mn : double) :
  dltb (of_int 19 - mx) (of_int (-19) - mn) = false →
  dltb (of_int 19 - mx) (clamp raw mx mn) = false
  ∧ (ISNAN (clamp raw mx mn) = false →
     dleb (clamp raw mx mn) (of_int 19 - mx) = true).
Proof.
  intros Hok. unfold clamp.
  assert (dltb (of_int 19 - mx) (fmax2 (fmin2 raw (of_int 19 - mx)) (of_int (-19) - mn))
          = false) as Hup
    by (apply fmax2_keeps_upper; [apply fmin2_not_above | done]).
  split; [done |]. intros Hnan. pose proof Hnan as Hnan'.
  rewrite fmax2_nan, fmin2_nan in Hnan'.
  apply orb_false_elim in Hnan' as [Hnan' _].
  apply orb_false_elim in Hnan' as [_ HU].
  by apply dleb_of_not_dltb.
Qed.

(** When the bounds conflict the lower one wins. *)
Lemma clamp_conflict (raw mx mn : double) :
  dltb (of_int 19 - mx) (of_int (-19) - mn) = true →
  ISNAN raw = false →
  clamp raw mx mn = of_int (-19) - mn.
Proof.
  intros Hconf Hraw. unfold clamp.
  pose proof Hconf as (HU & HL & _)%dltb_spec.
  assert (dltb (fmin2 raw (of_int 19 - mx)) (of_int (-19) - mn) = true) as Hlt.
  { unfold fmin2. rewrite Hraw, HU. change (false || false) with false. cbv iota.
    destruct (dltb raw (of_int 19 - mx)) eqn:Hlt; [|exact Hconf].
    apply (dltb_trans _ (of_int 19 - mx)); [exact Hlt | exact Hconf]. }
  unfold fmax2 at 1. rewrite fmin2_nan, Hraw, HU, HL.
  change (false || false || false) with false. cbv iota. by rewrite Hlt.
Qed.

(** C1, as amended. For every terminal node with a handle: when its in-bag
    numerator [Σ weight[i]·y[i]] is zero the prediction is set to [-19.0],
    and when the numerator is not zero but the denominator
    [Σ weight[i]·exp(f[i] + offset[i])] is, to [0.0]; that value is then
    clamped like any other, so the node ends with
    [fmax2(fmin2(v, 19 - nodeMax), -19 - nodeMin)] for [v = -19.0],
    respectively [v = 0.0].  With an offset the clamp does nothing and the
    node ends with exactly [-19.0], respectively [0.0]; without one it ends
    with exactly [-19.0], respectively a zero, when that value is neither
    above [19 - nodeMax] nor below [-19 - nodeMin]. *)
Theorem FitBestConstant_degenerate
    (this : CPoisson) (adY adMisc : list double) (adOffset : option (list double))
    (adW adF adZ : list double) (aiNodeAssign : list nat) (nTrain : nat)
    (vecpTermNodes : list (option nat)) (cTermNodes cMinObsInNode : nat)
    (afInBag : list Z) (adFadj : list double) (cIdxOff : Z)
    (nodes : list CNodeTerminal) :
  FitBestConstant_pre adY adOffset adW adF aiNodeAssign nTrain vecpTermNodes
    cTermNodes afInBag nodes →
  ∃ this' nodes',
    FitBestConstant this adY adMisc adOffset adW adF adZ aiNodeAssign nTrain
      vecpTermNodes cTermNodes cMinObsInNode afInBag adFadj cIdxOff nodes
    = Some (this', nodes')
    ∧ ∀ iNode a, (iNode < cTermNodes)%nat →
        vecpTermNodes !! iNode = Some (Some a) →
        let num := node_num adW adY afInBag aiNodeAssign nTrain iNode in
        let den := node_den adOffset adW adF afInBag aiNodeAssign nTrain iNode in
        let mx := clamp_max adOffset adF aiNodeAssign nTrain iNode in
        let mn := clamp_min adOffset adF aiNodeAssign nTrain iNode in
        let within v :=
          ISNAN (of_int 19 - mx) = false ∧ ISNAN (of_int (-19) - mn) = false
          ∧ dltb (of_int 19 - mx) v = false ∧ dltb v (of_int (-19) - mn) = false in
        (deqb num d0 = true →
           get_dPrediction nodes' a = Some (clamp (- of_int 19) mx mn)
           ∧ (is_Some adOffset → get_dPrediction nodes' a = Some (- of_int 19))
           ∧ (within (- of_int 19) → get_dPrediction nodes' a = Some (- of_int 19)))
        ∧ (deqb num d0 = false → deqb den d0 = true →
           get_dPrediction nodes' a = Some (clamp d0 mx mn)
           ∧ (is_Some adOffset → get_dPrediction nodes' a = Some d0)
           ∧ (within d0 → is_zero (clamp d0 mx mn) = true)).
Proof.
  intros Hpre.
  destruct (FitBestConstant_run adY adMisc adOffset adW adF adZ aiNodeAssign nTrain
    vecpTermNodes cTermNodes cMinObsInNode afInBag adFadj cIdxOff nodes Hpre this)
    as (nodes' & Hrun & _ & Hpred & _).
  eexists _, nodes'. split; [exact Hrun |].
  intros iNode a Hi Ha num den mx mn within.
  rewrite (Hpred iNode a Hi Ha). unfold node_prediction, unclamped.
  fold num den mx mn. split.
  - intros ->. split; [done |]. split.
    + intros [off Hoff].
      unfold mx, mn, clamp_max, clamp_min. rewrite Hoff. by rewrite clamp_default.
    + intros (HU & HL & Hup & Hlo). by rewrite clamp_idle.
  - intros -> ->. split; [done |]. split.
    + intros [off Hoff].
      unfold mx, mn, clamp_max, clamp_min. rewrite Hoff. by rewrite clamp_default.
    + intros (HU & HL & Hup & Hlo). by apply clamp_idle_zero.
Qed.

(** C2, as amended. Without an offset, for every terminal node with a
    handle, once [FitBestConstant] has returned: the prediction is never
    below [-19 - nodeMin], and it is never above [19 - nodeMax] unless that
    upper bound lies below the lower one (the extremes of the node are more
    than 38 apart).  [nodeMax] and [nodeMin] are the extremes of [f] over all
    the observations assigned to the node (no such [f] is above [nodeMax] or
    below [nodeMin] when none of them is NaN), and the bounds are the doubles
    the two subtractions give.  "Never below" reads both ways: [p < bound] is
    false, and [bound <= p] is true when [p] is a number. *)
Theorem FitBestConstant_clamp
    (this : CPoisson) (adY adMisc : list double)
    (adW adF adZ : list double) (aiNodeAssign : list nat) (nTrain : nat)
    (vecpTermNodes : list (option nat)) (cTermNodes cMinObsInNode : nat)
    (afInBag : list Z) (adFadj : list double) (cIdxOff : Z)
    (nodes : list CNodeTerminal) :
  FitBestConstant_pre adY None adW adF aiNodeAssign nTrain vecpTermNodes
    cTermNodes afInBag nodes →
  ∃ this' nodes',
    FitBestConstant this adY adMisc None adW adF adZ aiNodeAssign nTrain
      vecpTermNodes cTermNodes cMinObsInNode afInBag adFadj cIdxOff nodes
    = Some (this', nodes')
    ∧ ∀ iNode a, (iNode < cTermNodes)%nat →
        vecpTermNodes !! iNode = Some (Some a) →
        ∃ p, get_dPrediction nodes' a = Some p
          ∧ let nodeMax := node_max adF aiNodeAssign nTrain iNode in
            let nodeMin := node_min adF aiNodeAssign nTrain iNode in
            vecdMax this' !! iNode = Some nodeMax
            ∧ vecdMin this' !! iNode = Some nodeMin
            ∧ (Forall (λ i, ISNAN (adF !!! i) = false)
                 (node_obs aiNodeAssign nTrain iNode) →
               ∀ i, (i < nTrain)%nat → aiNodeAssign !!! i = iNode →
                    dltb nodeMax (adF !!! i) = false
                    ∧ dltb (adF !!! i) nodeMin = false)
            ∧ dltb p (of_int (-19) - nodeMin) = false
            ∧ (ISNAN p = false → dleb (of_int (-19) - nodeMin) p = true)
            ∧ (dltb (of_int 19 - nodeMax) (of_int (-19) - nodeMin) = false →
               dltb (of_int 19 - nodeMax) p = false
               ∧ (ISNAN p = false → dleb p (of_int 19 - nodeMax) = true)).
Proof.
  intros Hpre.
  destruct (FitBestConstant_run adY adMisc None adW adF adZ aiNodeAssign nTrain
    vecpTermNodes cTermNodes cMinObsInNode afInBag adFadj cIdxOff nodes Hpre this)
    as (nodes' & Hrun & _ & Hpred & _).
  eexists _, nodes'. split; [exact Hrun |].
  intros iNode a Hi Ha. eexists. split; [exact (Hpred iNode a Hi Ha) |].
  unfold node_prediction, clamp_max, clamp_min, scratch_at.
  cbn [vecdMax vecdMin]. cbv zeta. rewrite !lookup_fmap_seq by done.
  do 2 (split; [done |]).
  split; [intros Hnan i Hin Hk; by apply node_extremes_bound |].
  split; [apply clamp_lower |]. split; [apply clamp_lower |].
  apply clamp_upper.
Qed.

(** C8. With an offset the extremes of [f] are not tracked: the vectors
    [vecdMax] and [vecdMin] still hold [-HUGE_VAL] and [HUGE_VAL] when the
    call returns, and every terminal node with a handle ends with exactly the
    unclamped value: [-19.0] for a zero numerator, else [0.0] for a zero
    denominator, else [log(numerator/denominator)]. *)
Theorem FitBestConstant_offset_no_clamp
    (this : CPoisson) (adY adMisc off : list double)
    (adW adF adZ : list double) (aiNodeAssign : list nat) (nTrain : nat)
    (vecpTermNodes : list (option nat)) (cTermNodes cMinObsInNode : nat)
    (afInBag : list Z) (adFadj : list double) (cIdxOff : Z)
    (nodes : list CNodeTerminal) :
  FitBestConstant_pre adY (Some off) adW adF aiNodeAssign nTrain vecpTermNodes
    cTermNodes afInBag nodes →
  ∃ this' nodes',
    FitBestConstant this adY adMisc (Some off) adW adF adZ aiNodeAssign nTrain
      vecpTermNodes cTermNodes cMinObsInNode afInBag adFadj cIdxOff nodes
    = Some (this', nodes')
    ∧ vecdMax this' = replicate cTermNodes (- HUGE_VAL)
    ∧ vecdMin this' = replicate cTermNodes HUGE_VAL
    ∧ ∀ iNode a, (iNode < cTermNodes)%nat →
        vecpTermNodes !! iNode = Some (Some a) →
        let num := node_num adW adY afInBag aiNodeAssign nTrain iNode in
        let den := node_den (Some off) adW adF afInBag aiNodeAssign nTrain iNode in
        get_dPrediction nodes' a
        = Some (if deqb num d0 then - of_int 19
                else if deqb den d0 then d0
                else log (num / den)).
Proof.
  intros Hpre.
  destruct (FitBestConstant_run adY adMisc (Some off) adW adF adZ aiNodeAssign nTrain
    vecpTermNodes cTermNodes cMinObsInNode afInBag adFadj cIdxOff nodes Hpre this)
    as (nodes' & Hrun & _ & Hpred & _).
  eexists _, nodes'. split; [exact Hrun |]. simpl.
  split; [by apply fmap_seq_const |]. split; [by apply fmap_seq_const |].
  intros iNode a Hi Ha. rewrite (Hpred iNode a Hi Ha).
  unfold node_prediction, clamp_max, clamp_min. by rewrite clamp_default.
Qed.

(** The clamp gives NaN exactly when the unclamped value or one of the
    bounds is NaN. *)
Lemma clamp_nan (raw mx mn : double) :
  ISNAN (clamp raw mx mn)
  = ISNAN raw || ISNAN (of_int 19 - mx) || ISNAN (of_int (-19) - mn).
Proof. unfold clamp. by rewrite fmax2_nan, fmin2_nan. Qed.

(** With the clamps in the opposite order, conflicting bounds would leave
    the upper one. *)
Lemma clamp_reversed_conflict (raw upper lower : double) :
  dltb upper lower = true →
  ISNAN raw = false →
  fmin2 (fmax2 raw lower) upper = upper.
Proof.
  intros Hconf Hraw. pose proof Hconf as (HU & HL & _)%dltb_spec.
  assert (ISNAN (fmax2 raw lower) = false) as Hnan
    by (by rewrite fmax2_nan, Hraw, HL).
  assert (dltb upper (fmax2 raw lower) = true) as Hlt
    by (apply (dltb_lt_le_trans _ lower); [done | done | apply fmax2_not_below]).
  unfold fmin2 at 1. rewrite Hnan, HU. change (false || false) with false. cbv iota.
  by rewrite (dltb_asym _ _ Hlt).
Qed.

(** C10, as amended. The upper clamp is applied before the lower one: every
    terminal node with a handle ends with
    [fmax2(fmin2(raw, 19 - nodeMax), -19 - nodeMin)], where [raw] is the
    unclamped value computed from the node's in-bag sums
    [num = Σ weight[i]·y[i]] and [den = Σ weight[i]·exp(f[i] + offset[i])],
    and [nodeMax], [nodeMin] are the extremes of [f] over the observations
    assigned to the node ([-HUGE_VAL] and [HUGE_VAL] with an offset); these
    are the values the scratch vectors hold when the call returns.  The
    prediction is NaN exactly when [raw] or one of the two bounds is; it is
    never below [-19 - nodeMin] ([p < bound] is false for every input, and
    [bound <= p] is true when [p] is a number), whatever the upper bound is.
    When the two bounds conflict ([19 - nodeMax < -19 - nodeMin]) and [raw]
    is a number, the prediction is the lower bound, where the clamps in the
    opposite order would leave the upper one, a different value. *)
Theorem FitBestConstant_clamp_order
    (this : CPoisson) (adY adMisc : list double) (adOffset : option (list double))
    (adW adF adZ : list double) (aiNodeAssign : list nat) (nTrain : nat)
    (vecpTermNodes : list (option nat)) (cTermNodes cMinObsInNode : nat)
    (afInBag : list Z) (adFadj : list double) (cIdxOff : Z)
    (nodes : list CNodeTerminal) :
  FitBestConstant_pre adY adOffset adW adF aiNodeAssign nTrain vecpTermNodes
    cTermNodes afInBag nodes →
  ∃ this' nodes',
    FitBestConstant this adY adMisc adOffset adW adF adZ aiNodeAssign nTrain
      vecpTermNodes cTermNodes cMinObsInNode afInBag adFadj cIdxOff nodes
    = Some (this', nodes')
    ∧ ∀ iNode a, (iNode < cTermNodes)%nat →
        vecpTermNodes !! iNode = Some (Some a) →
        let num := dsum (map (λ i, adW !!! i * adY !!! i)
                           (node_in_bag afInBag aiNodeAssign nTrain iNode)) in
        let den := dsum (map (λ i, adW !!! i * exp (eta adOffset adF i))
                           (node_in_bag afInBag aiNodeAssign nTrain iNode)) in
        let nodeMax := match adOffset with
                       | None => node_max adF aiNodeAssign nTrain iNode
                       | Some _ => - HUGE_VAL
                       end in
        let nodeMin := match adOffset with
                       | None => node_min adF aiNodeAssign nTrain iNode
                       | Some _ => HUGE_VAL
                       end in
        let raw := if deqb num d0 then - of_int 19
                   else if deqb den d0 then d0
                   else log (num / den) in
        let upper := of_int 19 - nodeMax in
        let lower := of_int (-19) - nodeMin in
        vecdNum this' !! iNode = Some num
        ∧ vecdDen this' !! iNode = Some den
        ∧ vecdMax this' !! iNode = Some nodeMax
        ∧ vecdMin this' !! iNode = Some nodeMin
        ∧ ∃ p, get_dPrediction nodes' a = Some p
            ∧ p = fmax2 (fmin2 raw upper) lower
            ∧ ISNAN p = ISNAN raw || ISNAN upper || ISNAN lower
            ∧ dltb p lower = false
            ∧ (ISNAN p = false → dleb lower p = true)
            ∧ (dltb upper lower = true → ISNAN raw = false →
               p = lower
               ∧ fmin2 (fmax2 raw lower) upper = upper
               ∧ p ≠ upper).
Proof.
  intros Hpre.
  destruct (FitBestConstant_run adY adMisc adOffset adW adF adZ aiNodeAssign nTrain
    vecpTermNodes cTermNodes cMinObsInNode afInBag adFadj cIdxOff nodes Hpre this)
    as (nodes' & Hrun & _ & Hpred & _).
  eexists _, nodes'. split; [exact Hrun |].
  intros iNode a Hi Ha. cbv zeta.
  unfold scratch_at. cbn [vecdNum vecdDen vecdMax vecdMin].
  rewrite !lookup_fmap_seq by done.
  do 4 (split; [done |]).
  eexists. split; [exact (Hpred iNode a Hi Ha) |].
  fold (node_num adW adY afInBag aiNodeAssign nTrain iNode).
  fold (node_den adOffset adW adF afInBag aiNodeAssign nTrain iNode).
  fold (clamp_max adOffset adF aiNodeAssign nTrain iNode).
  fold (clamp_min adOffset adF aiNodeAssign nTrain iNode).
  fold (unclamped (node_num adW adY afInBag aiNodeAssign nTrain iNode)
          (node_den adOffset adW adF afInBag aiNodeAssign nTrain iNode)).
  unfold node_prediction.
  set (raw := unclamped _ _).
  set (mx := clamp_max _ _ _ _ _). set (mn := clamp_min _ _ _ _ _).
  split; [done |]. split; [apply clamp_nan |].
  split; [apply clamp_lower |]. split; [apply clamp_lower |].
  intros Hconf Hraw.
  pose proof (clamp_conflict raw mx mn Hconf Hraw) as Hp.
  split; [exact Hp |]. split; [by apply clamp_reversed_conflict |].
  rewrite Hp. intros Heq. rewrite Heq, dltb_irrefl in Hconf. discriminate.
Qed.

(** ** Further properties of the operations *)

Lemma filter_seq_none (P : nat → Prop) `{!∀ i, Decision (P i)} (n : nat) :
  (∀ i, (i < n)%nat → ¬ P i) → filter P (seq 0 n) = [].
Proof.
  intros Hnone.
  assert (Forall (λ i, ¬ P i) (seq 0 n)) as Hall.
  { apply Forall_forall. intros i Hi. apply Hnone. apply elem_of_seq in Hi. lia. }
  induction Hall as [|i l Hi Hl IH]; [done |].
  rewrite filter_cons. by destruct (decide (P i)).
Qed.

(** X1. [Deviance] compares [i] with [cLength + cIdxOff] in [unsigned long]:
    when that bound is not above the start [(unsigned long) cIdxOff], the
    loop body never runs, no array is read, and the value returned is
    [-2·0.0/0.0], NaN.  This is the case for an empty window, and for a
    negative [cIdxOff] with [cLength >= -cIdxOff]. *)
Theorem Deviance_empty_window
    (adY adMisc : list double) (adOffset : option (list double))
    (adWeight adF : list double) (cLength : nat) (cIdxOff : Z) :
  (to_ulong (Z.of_nat cLength + cIdxOff) ≤ to_ulong cIdxOff →
   Deviance adY adMisc adOffset adWeight adF cLength cIdxOff = Some S754_nan)
  ∧ (cLength = 0%nat →
     Deviance adY adMisc adOffset adWeight adF cLength cIdxOff = Some S754_nan)
  ∧ (- 2 ^ 31 ≤ cIdxOff < 0 → - cIdxOff ≤ Z.of_nat cLength < 2 ^ 64 →
     Deviance adY adMisc adOffset adWeight adF cLength cIdxOff = Some S754_nan).
Proof.
  assert (to_ulong (Z.of_nat cLength + cIdxOff) ≤ to_ulong cIdxOff →
          Deviance adY adMisc adOffset adWeight adF cLength cIdxOff = Some S754_nan)
    as Hgen.
  { intros Hle. unfold Deviance. cbv zeta.
    assert (Z.to_nat (to_ulong (Z.of_nat cLength + cIdxOff) - to_ulong cIdxOff) = 0%nat)
      as -> by lia.
    by destruct adOffset. }
  split; [exact Hgen |]. split.
  - intros ->. apply Hgen. change (Z.of_nat 0) with 0. by rewrite Z.add_0_l.
  - intros Hneg Hlen. apply Hgen. unfold to_ulong.
    rewrite (Z.mod_small (Z.of_nat cLength + cIdxOff)) by lia.
    rewrite <- (Z_mod_plus_full cIdxOff 1 (2 ^ 64)).
    rewrite Z.mod_small by lia. lia.
Qed.

(** X2. [Deviance] reads its arrays only inside the window: two calls whose
    arrays agree at every index the loop visits (and whose offsets are both
    absent or both present) return the same value, whatever the arrays hold
    elsewhere and whatever is passed for [adMisc]. *)
Theorem Deviance_reads_window_only
    (adY adMisc adY' adMisc' : list double) (adOffset adOffset' : option (list double))
    (adWeight adF adWeight' adF' : list double) (cLength : nat) (cIdxOff : Z) :
  (∀ i, in_Deviance_range cLength cIdxOff i →
        adY !! i = adY' !! i ∧ adWeight !! i = adWeight' !! i
        ∧ adF !! i = adF' !! i ∧ same_offset_at adOffset adOffset' i) →
  Deviance adY adMisc adOffset adWeight adF cLength cIdxOff
  = Deviance adY' adMisc' adOffset' adWeight' adF' cLength cIdxOff.
Proof.
  intros Hsame. unfold Deviance. cbv zeta.
  destruct adOffset as [off|], adOffset' as [off'|].
  - f_equal. apply for_loop_ext. intros j [dL dW] Hj.
    apply Deviance_loop_range in Hj. destruct (Hsame j Hj) as (-> & -> & -> & Ho).
    simpl in Ho. by rewrite Ho.
  - destruct (Z.to_nat (to_ulong (Z.of_nat cLength + cIdxOff) - to_ulong cIdxOff))
      as [|n] eqn:Hn; [done |].
    destruct (Hsame (Z.to_nat (to_ulong cIdxOff))) as (_ & _ & _ & []).
    apply Deviance_loop_range. lia.
  - destruct (Z.to_nat (to_ulong (Z.of_nat cLength + cIdxOff) - to_ulong cIdxOff))
      as [|n] eqn:Hn; [done |].
    destruct (Hsame (Z.to_nat (to_ulong cIdxOff))) as (_ & _ & _ & []).
    apply Deviance_loop_range. lia.
  - f_equal. apply for_loop_ext. intros j [dL dW] Hj.
    apply Deviance_loop_range in Hj. by destruct (Hsame j Hj) as (-> & -> & -> & _).
Qed.

(** X3. [BagImprovement] reads its arrays only at the out-of-bag
    observations: two calls with the same in-bag flags whose arrays agree
    wherever the flag is zero return the same value.  An absent offset and an
    offset that is [0.0] there are not told apart. *)
Theorem BagImprovement_out_of_bag_only
    (adY adMisc adY' adMisc' : list double) (adOffset adOffset' : option (list double))
    (adWeight adF adFadj adWeight' adF' adFadj' : list double) (afInBag : list Z)
    (dStepSize : double) (nTrain : nat) :
  (∀ i, (i < nTrain)%nat → afInBag !! i = Some 0%Z →
        adY !! i = adY' !! i ∧ adWeight !! i = adWeight' !! i
        ∧ adF !! i = adF' !! i ∧ adFadj !! i = adFadj' !! i
        ∧ load_or adOffset i d0 = load_or adOffset' i d0) →
  BagImprovement adY adMisc adOffset adWeight adF adFadj afInBag dStepSize nTrain
  = BagImprovement adY' adMisc' adOffset' adWeight' adF' adFadj' afInBag dStepSize nTrain.
Proof.
  intros Hsame. unfold BagImprovement. f_equal. apply for_loop_ext.
  intros j [r w] Hj. destruct (afInBag !! j) as [b|] eqn:Hb; [|done]. simpl.
  destruct (Z.eqb_spec b 0) as [->|Hne]; [|done].
  by destruct (Hsame j ltac:(lia) Hb) as (-> & -> & -> & -> & ->).
Qed.

(** X4. [FitBestConstant] reads [adY] and [adW] only at the in-bag
    observations, and with an offset it reads nothing else either: without an
    offset two calls whose [adY] and [adW] agree wherever the in-bag flag is
    not zero give the same scratch vectors and the same nodes; with an offset
    the same holds when [adY], [adW], [adF], the offset and the node
    assignment agree there.  What is passed for the object's old scratch
    vectors, [adMisc], [adZ], [cMinObsInNode], [adFadj] and [cIdxOff] does not
    matter. *)
Theorem FitBestConstant_in_bag_only
    (this this' : CPoisson) (adY adMisc adY' adMisc' : list double)
    (off off' adW adF adZ adW' adF' adZ' : list double)
    (aiNodeAssign aiNodeAssign' : list nat) (nTrain : nat)
    (vecpTermNodes : list (option nat)) (cTermNodes cMinObsInNode cMinObsInNode' : nat)
    (afInBag : list Z) (adFadj adFadj' : list double) (cIdxOff cIdxOff' : Z)
    (nodes : list CNodeTerminal) :
  ((∀ i b, (i < nTrain)%nat → afInBag !! i = Some b → b ≠ 0%Z →
           adY !! i = adY' !! i ∧ adW !! i = adW' !! i) →
   FitBestConstant this adY adMisc None adW adF adZ aiNodeAssign nTrain
     vecpTermNodes cTermNodes cMinObsInNode afInBag adFadj cIdxOff nodes
   = FitBestConstant this' adY' adMisc' None adW' adF adZ' aiNodeAssign nTrain
       vecpTermNodes cTermNodes cMinObsInNode' afInBag adFadj' cIdxOff' nodes)
  ∧
  ((∀ i b, (i < nTrain)%nat → afInBag !! i = Some b → b ≠ 0%Z →
           adY !! i = adY' !! i ∧ adW !! i = adW' !! i ∧ adF !! i = adF' !! i
           ∧ off !! i = off' !! i ∧ aiNodeAssign !! i = aiNodeAssign' !! i) →
   FitBestConstant this adY adMisc (Some off) adW adF adZ aiNodeAssign nTrain
     vecpTermNodes cTermNodes cMinObsInNode afInBag adFadj cIdxOff nodes
   = FitBestConstant this' adY' adMisc' (Some off') adW' adF' adZ' aiNodeAssign' nTrain
       vecpTermNodes cTermNodes cMinObsInNode' afInBag adFadj' cIdxOff' nodes).
Proof.
  split; intros Hsame; unfold FitBestConstant; cbv zeta.
  - assert (∀ s, accumulate_nodes s adY None adW adF aiNodeAssign nTrain afInBag
                 = accumulate_nodes s adY' None adW' adF aiNodeAssign nTrain afInBag)
      as -> ; [|done].
    intros s. unfold accumulate_nodes. apply for_loop_ext. intros j t Hj.
    destruct (afInBag !! j) as [b|] eqn:Hb; [|done]. simpl.
    destruct (aiNodeAssign !! j) as [k|]; [|done]. simpl.
    destruct (Z.eqb_spec b 0) as [->|Hne]; [done |].
    destruct (Hsame j b ltac:(lia) Hb Hne) as [HY HW].
    unfold accumulate_in_bag. by rewrite HY, HW.
  - assert (∀ s, accumulate_nodes s adY (Some off) adW adF aiNodeAssign nTrain afInBag
                 = accumulate_nodes s adY' (Some off') adW' adF' aiNodeAssign' nTrain
                     afInBag) as -> ; [|done].
    intros s. unfold accumulate_nodes. apply for_loop_ext. intros j t Hj.
    destruct (afInBag !! j) as [b|] eqn:Hb; [|done]. simpl.
    destruct (Z.eqb_spec b 0) as [->|Hne]; [done |].
    destruct (Hsame j b ltac:(lia) Hb Hne) as (HY & HW & HF & HO & HA).
    unfold accumulate_in_bag. by rewrite HY, HW, HF, HO, HA.
Qed.

(** The array part of [FitBestConstant_pre] is all the first loop needs. *)
Lemma pre_shared_no_handles
    (adY : list double) (adOffset : option (list double)) (adW adF : list double)
    (aiNodeAssign : list nat) (nTrain : nat) (vecpTermNodes : list (option nat))
    (cTermNodes : nat) (afInBag : list Z) (nodes : list CNodeTerminal) :
  FitBestConstant_pre_shared adY adOffset adW adF aiNodeAssign nTrain vecpTermNodes
    cTermNodes afInBag nodes →
  FitBestConstant_pre adY adOffset adW adF aiNodeAssign nTrain
    (replicate cTermNodes None) cTermNodes afInBag [].
Proof.
  intros (HY & HW & HF & HB & HA & Hoff & Hassign & _).
  unfold FitBestConstant_pre. do 7 (split; [done |]).
  split; [by rewrite length_replicate |].
  split.
  - intros i a Hi Hl. by rewrite lookup_replicate_2 in Hl.
  - intros i i' a Hi Hi' Hl. by rewrite lookup_replicate_2 in Hl.
Qed.

(** The second loop when handles may be shared: a node holds the prediction
    of the last handle that designates it. *)
Lemma fit_nodes_shared (this : CPoisson) (pred : nat → double)
    (vecpTermNodes : list (option nat)) (cTermNodes : nat) (nodes : list CNodeTerminal) :
  (cTermNodes ≤ length vecpTermNodes)%nat →
  (∀ i a, (i < cTermNodes)%nat → vecpTermNodes !! i = Some (Some a) →
          (a < length nodes)%nat) →
  (∀ i a ns, (i < cTermNodes)%nat → (a < length ns)%nat →
             fit_node this i a ns = Some (<[a := {| dPrediction := pred i |}]> ns)) →
  ∃ nodes',
    fit_nodes this vecpTermNodes cTermNodes nodes = Some nodes'
    ∧ length nodes' = length nodes
    ∧ (∀ i a, (i < cTermNodes)%nat → vecpTermNodes !! i = Some (Some a) →
         (∀ i', (i < i' < cTermNodes)%nat → vecpTermNodes !! i' ≠ Some (Some a)) →
         nodes' !! a = Some {| dPrediction := pred i |})
    ∧ (∀ a, (∀ i, (i < cTermNodes)%nat → vecpTermNodes !! i ≠ Some (Some a)) →
            nodes' !! a = nodes !! a).
Proof.
  intros Hvec Hvalid Hfit.
  pose (Inv := λ (j : nat) (ns : list CNodeTerminal),
    length ns = length nodes
    ∧ (∀ i a, (i < j)%nat → vecpTermNodes !! i = Some (Some a) →
         (∀ i', (i < i' < j)%nat → vecpTermNodes !! i' ≠ Some (Some a)) →
         ns !! a = Some {| dPrediction := pred i |})
    ∧ (∀ a, (∀ i, (i < j)%nat → vecpTermNodes !! i ≠ Some (Some a)) →
            ns !! a = nodes !! a)).
  destruct (for_loop_inv Inv
    (λ iNode ns, p ← vecpTermNodes !! iNode;
       match p with
       | None => Some ns
       | Some a => fit_node this iNode a ns
       end) cTermNodes 0%nat nodes) as (nodes' & Hrun & Hinv).
  - unfold Inv. split; [done |]. split; [intros; lia | done].
  - intros j ns Hj (Hlen & Hdone & Hframe).
    destruct (lookup_lt_is_Some_2 vecpTermNodes j) as [p Hp]; [lia |].
    rewrite Hp. simpl. destruct p as [a|].
    + assert (a < length nodes)%nat as Ha by (apply (Hvalid j); [lia | done]).
      rewrite Hfit by lia.
      eexists; split; [done |]. unfold Inv. split; [by rewrite length_insert |]. split.
      * intros i a' Hi Hi' Hlast. destruct (decide (i = j)) as [->|Hij].
        -- assert (a' = a) as -> by congruence.
           by rewrite list_lookup_insert_eq by lia.
        -- assert (a ≠ a') as Hne.
           { intros ->. apply (Hlast j); [lia | done]. }
           rewrite list_lookup_insert_ne by done. apply Hdone; [lia | done |].
           intros i' Hi''. apply Hlast. lia.
      * intros a' Hfree.
        assert (a ≠ a') as Hne by (intros ->; by apply (Hfree j); [lia |]).
        rewrite list_lookup_insert_ne by done. apply Hframe.
        intros i Hi. apply Hfree. lia.
    + eexists; split; [done |]. unfold Inv. split; [done |]. split.
      * intros i a' Hi Hi' Hlast. destruct (decide (i = j)) as [->|Hij]; [congruence |].
        apply Hdone; [lia | done |]. intros i' Hi''. apply Hlast. lia.
      * intros a' Hfree. apply Hframe. intros i Hi. apply Hfree. lia.
  - exists nodes'. destruct Hinv as (Hlen & Hdone & Hframe). simpl in *.
    repeat split; try done.
Qed.

(** [FitBestConstant] when handles may be shared. *)
Lemma FitBestConstant_run_shared
    (this : CPoisson) (adY adMisc : list double) (adOffset : option (list double))
    (adW adF adZ : list double) (aiNodeAssign : list nat) (nTrain : nat)
    (vecpTermNodes : list (option nat)) (cTermNodes cMinObsInNode : nat)
    (afInBag : list Z) (adFadj : list double) (cIdxOff : Z)
    (nodes : list CNodeTerminal) :
  FitBestConstant_pre_shared adY adOffset adW adF aiNodeAssign nTrain vecpTermNodes
    cTermNodes afInBag nodes →
  ∃ nodes',
    FitBestConstant this adY adMisc adOffset adW adF adZ aiNodeAssign nTrain
      vecpTermNodes cTermNodes cMinObsInNode afInBag adFadj cIdxOff nodes
    = Some (scratch_at adY adOffset adW adF aiNodeAssign cTermNodes afInBag nTrain,
            nodes')
    ∧ length nodes' = length nodes
    ∧ (∀ i a, (i < cTermNodes)%nat → vecpTermNodes !! i = Some (Some a) →
         (∀ i', (i < i' < cTermNodes)%nat → vecpTermNodes !! i' ≠ Some (Some a)) →
         get_dPrediction nodes' a
         = Some (node_prediction adY adOffset adW adF aiNodeAssign nTrain afInBag i))
    ∧ (∀ a, (∀ i, (i < cTermNodes)%nat → vecpTermNodes !! i ≠ Some (Some a)) →
            nodes' !! a = nodes !! a).
Proof.
  intros Hpre.
  pose proof (pre_shared_no_handles _ _ _ _ _ _ _ _ _ _ Hpre) as Hpre'.
  pose proof (accumulate_nodes_eq _ _ _ _ _ _ _ _ _ _ Hpre') as Hacc.
  pose proof (scratch_at_0 _ _ _ _ _ _ _ _ _ _ Hpre') as Hinit.
  destruct Hpre as (_ & _ & _ & _ & _ & _ & _ & Hvec & Hvalid).
  destruct (fit_nodes_shared
    (scratch_at adY adOffset adW adF aiNodeAssign cTermNodes afInBag nTrain)
    (node_prediction adY adOffset adW adF aiNodeAssign nTrain afInBag)
    vecpTermNodes cTermNodes nodes Hvec Hvalid)
    as (nodes' & Hfit & Hlen & Hdone & Hframe).
  { intros i a ns Hi Ha.
    apply fit_node_at; try done; simpl; by apply lookup_fmap_seq. }
  exists nodes'. unfold FitBestConstant. cbv zeta.
  rewrite <- Hinit, Hacc. simpl. rewrite Hfit. simpl.
  repeat split; try done.
  intros i a Hi Ha Hlast. unfold get_dPrediction. by rewrite (Hdone i a Hi Ha Hlast).
Qed.

(** X5. [FitBestConstant] writes only through the handles it is given: the
    store keeps its length, every node that no handle among the first
    [cTermNodes] designates is left as it was, and when all those handles are
    null the store is unchanged. *)
Theorem FitBestConstant_frame
    (this : CPoisson) (adY adMisc : list double) (adOffset : option (list double))
    (adW adF adZ : list double) (aiNodeAssign : list nat) (nTrain : nat)
    (vecpTermNodes : list (option nat)) (cTermNodes cMinObsInNode : nat)
    (afInBag : list Z) (adFadj : list double) (cIdxOff : Z)
    (nodes : list CNodeTerminal) :
  FitBestConstant_pre_shared adY adOffset adW adF aiNodeAssign nTrain vecpTermNodes
    cTermNodes afInBag nodes →
  ∃ this' nodes',
    FitBestConstant this adY adMisc adOffset adW adF adZ aiNodeAssign nTrain
      vecpTermNodes cTermNodes cMinObsInNode afInBag adFadj cIdxOff nodes
    = Some (this', nodes')
    ∧ length nodes' = length nodes
    ∧ (∀ a, (∀ i, (i < cTermNodes)%nat → vecpTermNodes !! i ≠ Some (Some a)) →
            nodes' !! a = nodes !! a)
    ∧ ((∀ i, (i < cTermNodes)%nat → vecpTermNodes !! i = Some None) →
       nodes' = nodes).
Proof.
  intros Hpre.
  destruct (FitBestConstant_run_shared this adY adMisc adOffset adW adF adZ
    aiNodeAssign nTrain vecpTermNodes cTermNodes cMinObsInNode afInBag adFadj
    cIdxOff nodes Hpre) as (nodes' & Hrun & Hlen & _ & Hframe).
  eexists _, nodes'. split; [exact Hrun |]. split; [done |]. split; [done |].
  intros Hnull. apply list_eq. intros a. apply Hframe.
  intros i Hi. rewrite (Hnull i Hi). congruence.
Qed.

(** X6. When [FitBestConstant] returns, each of the four scratch vectors has
    [cTermNodes] entries, and for every node index [k] below [cTermNodes],
    with a handle or not, [vecdNum[k]] and [vecdDen[k]] hold the sums
    [Σ weight[i]·y[i]] and [Σ weight[i]·exp(f[i] + offset[i])] over the in-bag
    observations assigned to [k], in order, and [vecdMax[k]] and [vecdMin[k]]
    the extremes of [f] over all observations assigned to [k] (the initial
    [-HUGE_VAL] and [HUGE_VAL] with an offset).  Nothing of what the vectors
    held before the call is left. *)
Theorem FitBestConstant_scratch
    (this : CPoisson) (adY adMisc : list double) (adOffset : option (list double))
    (adW adF adZ : list double) (aiNodeAssign : list nat) (nTrain : nat)
    (vecpTermNodes : list (option nat)) (cTermNodes cMinObsInNode : nat)
    (afInBag : list Z) (adFadj : list double) (cIdxOff : Z)
    (nodes : list CNodeTerminal) :
  FitBestConstant_pre_shared adY adOffset adW adF aiNodeAssign nTrain vecpTermNodes
    cTermNodes afInBag nodes →
  ∃ this' nodes',
    FitBestConstant this adY adMisc adOffset adW adF adZ aiNodeAssign nTrain
      vecpTermNodes cTermNodes cMinObsInNode afInBag adFadj cIdxOff nodes
    = Some (this', nodes')
    ∧ (∀ before,
         FitBestConstant before adY adMisc adOffset adW adF adZ aiNodeAssign nTrain
           vecpTermNodes cTermNodes cMinObsInNode afInBag adFadj cIdxOff nodes
         = Some (this', nodes'))
    ∧ length (vecdNum this') = cTermNodes
    ∧ length (vecdDen this') = cTermNodes
    ∧ length (vecdMax this') = cTermNodes
    ∧ length (vecdMin this') = cTermNodes
    ∧ ∀ k, (k < cTermNodes)%nat →
        vecdNum this' !! k
        = Some (dsum (map (λ i, adW !!! i * adY !!! i)
                        (node_in_bag afInBag aiNodeAssign nTrain k)))
        ∧ vecdDen this' !! k
          = Some (dsum (map (λ i, adW !!! i * exp (eta adOffset adF i))
                          (node_in_bag afInBag aiNodeAssign nTrain k)))
        ∧ vecdMax this' !! k
          = Some (match adOffset with
                  | None => dmax_list (map (λ i, adF !!! i)
                                         (node_obs aiNodeAssign nTrain k))
                  | Some _ => - HUGE_VAL
                  end)
        ∧ vecdMin this' !! k
          = Some (match adOffset with
                  | None => dmin_list (map (λ i, adF !!! i)
                                         (node_obs aiNodeAssign nTrain k))
                  | Some _ => HUGE_VAL
                  end).
Proof.
  intros Hpre.
  destruct (FitBestConstant_run_shared this adY adMisc adOffset adW adF adZ
    aiNodeAssign nTrain vecpTermNodes cTermNodes cMinObsInNode afInBag adFadj
    cIdxOff nodes Hpre) as (nodes' & Hrun & _).
  eexists _, nodes'. split; [exact Hrun |]. split; [by intros before |].
  unfold scratch_at. cbn [vecdNum vecdDen vecdMax vecdMin].
  rewrite !length_fmap, !length_seq. do 4 (split; [done |]).
  intros k Hk. rewrite !lookup_fmap_seq by done. done.
Qed.

(** X7. Several handles may designate one node: [FitBestConstant] then
    leaves in it the prediction computed for the last of them, the one with
    the highest index below [cTermNodes]. *)
Theorem FitBestConstant_shared_handles
    (this : CPoisson) (adY adMisc : list double) (adOffset : option (list double))
    (adW adF adZ : list double) (aiNodeAssign : list nat) (nTrain : nat)
    (vecpTermNodes : list (option nat)) (cTermNodes cMinObsInNode : nat)
    (afInBag : list Z) (adFadj : list double) (cIdxOff : Z)
    (nodes : list CNodeTerminal) :
  FitBestConstant_pre_shared adY adOffset adW adF aiNodeAssign nTrain vecpTermNodes
    cTermNodes afInBag nodes →
  ∃ this' nodes',
    FitBestConstant this adY adMisc adOffset adW adF adZ aiNodeAssign nTrain
      vecpTermNodes cTermNodes cMinObsInNode afInBag adFadj cIdxOff nodes
    = Some (this', nodes')
    ∧ ∀ i a, (i < cTermNodes)%nat → vecpTermNodes !! i = Some (Some a) →
        (∀ i', (i < i' < cTermNodes)%nat → vecpTermNodes !! i' ≠ Some (Some a)) →
        ∃ num den mx mn,
          vecdNum this' !! i = Some num ∧ vecdDen this' !! i = Some den
          ∧ vecdMax this' !! i = Some mx ∧ vecdMin this' !! i = Some mn
          ∧ get_dPrediction nodes' a
            = Some (fmax2 (fmin2 (if deqb num d0 then - of_int 19
                                  else if deqb den d0 then d0
                                  else log (num / den))
                             (of_int 19 - mx))
                      (of_int (-19) - mn)).
Proof.
  intros Hpre.
  destruct (FitBestConstant_run_shared this adY adMisc adOffset adW adF adZ
    aiNodeAssign nTrain vecpTermNodes cTermNodes cMinObsInNode afInBag adFadj
    cIdxOff nodes Hpre) as (nodes' & Hrun & _ & Hpred & _).
  eexists _, nodes'. split; [exact Hrun |].
  intros i a Hi Ha Hlast.
  exists (node_num adW adY afInBag aiNodeAssign nTrain i),
    (node_den adOffset adW adF afInBag aiNodeAssign nTrain i),
    (clamp_max adOffset adF aiNodeAssign nTrain i),
    (clamp_min adOffset adF aiNodeAssign nTrain i).
  unfold scratch_at. cbn [vecdNum vecdDen vecdMax vecdMin].
  rewrite !lookup_fmap_seq by done. do 4 (split; [done |]).
  exact (Hpred i a Hi Ha Hlast).
Qed.

(** X8. A terminal node to which no observation is assigned ends with
    exactly [-19.0]; with an offset the same holds for a node to which no
    in-bag observation is assigned. *)
Theorem FitBestConstant_empty_node
    (this : CPoisson) (adY adMisc : list double) (adOffset : option (list double))
    (adW adF adZ : list double) (aiNodeAssign : list nat) (nTrain : nat)
    (vecpTermNodes : list (option nat)) (cTermNodes cMinObsInNode : nat)
    (afInBag : list Z) (adFadj : list double) (cIdxOff : Z)
    (nodes : list CNodeTerminal) :
  FitBestConstant_pre adY adOffset adW adF aiNodeAssign nTrain vecpTermNodes
    cTermNodes afInBag nodes →
  ∃ this' nodes',
    FitBestConstant this adY adMisc adOffset adW adF adZ aiNodeAssign nTrain
      vecpTermNodes cTermNodes cMinObsInNode afInBag adFadj cIdxOff nodes
    = Some (this', nodes')
    ∧ ∀ iNode a, (iNode < cTermNodes)%nat →
        vecpTermNodes !! iNode = Some (Some a) →
        ((∀ i, (i < nTrain)%nat → aiNodeAssign !!! i ≠ iNode) →
         get_dPrediction nodes' a = Some (- of_int 19))
        ∧ (is_Some adOffset →
           (∀ i, (i < nTrain)%nat → aiNodeAssign !!! i = iNode → afInBag !!! i = 0%Z) →
           get_dPrediction nodes' a = Some (- of_int 19)).
Proof.
  intros Hpre.
  destruct (FitBestConstant_run adY adMisc adOffset adW adF adZ aiNodeAssign nTrain
    vecpTermNodes cTermNodes cMinObsInNode afInBag adFadj cIdxOff nodes Hpre this)
    as (nodes' & Hrun & _ & Hpred & _).
  eexists _, nodes'. split; [exact Hrun |].
  intros iNode a Hi Ha. rewrite (Hpred iNode a Hi Ha). unfold node_prediction.
  split.
  - intros Hnone.
    assert (node_in_bag afInBag aiNodeAssign nTrain iNode = []) as Hbag.
    { apply filter_seq_none. intros i Hlt [_ Hk]. by apply (Hnone i). }
    assert (node_obs aiNodeAssign nTrain iNode = []) as Hobs
      by (by apply filter_seq_none).
    unfold node_num, clamp_max, clamp_min, node_max, node_min. rewrite Hbag, Hobs.
    change (unclamped (dsum (map _ [])) _) with (- of_int 19).
    f_equal. destruct adOffset; apply clamp_default.
  - intros [off ->] Hout.
    assert (node_in_bag afInBag aiNodeAssign nTrain iNode = []) as Hbag.
    { apply filter_seq_none. intros i Hlt [Hb Hk]. by apply Hb, Hout. }
    unfold node_num. rewrite Hbag.
    change (unclamped (dsum (map _ [])) _) with (- of_int 19).
    by rewrite clamp_default.
Qed.

(** A loop over [[k, k + n)] is the loop over [[0, n)] of the body shifted
    by [k]. *)
Lemma for_loop_shift {S : Type} (body : nat → S → option S) (n k : nat) (s : S) :
  for_loop n k body s = for_loop n 0%nat (λ i, body (k + i)%nat) s.
Proof.
  enough (∀ i0 t, for_loop n (k + i0)%nat body t
                  = for_loop n i0 (λ i, body (k + i)%nat) t) as H
    by (by rewrite <- (H 0%nat s), Nat.add_0_r).
  induction n as [|n IH]; intros i0 t; simpl; [done |].
  destruct (body (k + i0)%nat t) as [t'|]; simpl; [|done].
  by rewrite <- IH, Nat.add_succ_r.
Qed.

(** X9. A window of [Deviance] that starts at [cIdxOff] is the window that
    starts at 0 of the arrays advanced by [cIdxOff] entries: passing
    [cIdxOff] or passing the pointers [adY + cIdxOff], ... gives the same
    result, undefined behaviour included. *)
Theorem Deviance_window_is_subarray
    (adY adMisc adMisc' : list double) (adOffset : option (list double))
    (adWeight adF : list double) (cLength : nat) (cIdxOff : Z) :
  (0 ≤ cIdxOff)%Z →
  (cIdxOff + Z.of_nat cLength < 2 ^ 64)%Z →
  Deviance adY adMisc adOffset adWeight adF cLength cIdxOff
  = Deviance (drop (Z.to_nat cIdxOff) adY) adMisc'
      (drop (Z.to_nat cIdxOff) <$> adOffset)
      (drop (Z.to_nat cIdxOff) adWeight) (drop (Z.to_nat cIdxOff) adF) cLength 0%Z.
Proof.
  intros H0 Hlt. unfold Deviance. cbv zeta.
  destruct (Deviance_bounds cLength cIdxOff H0 Hlt) as [-> ->].
  destruct (Deviance_bounds cLength 0%Z ltac:(lia) ltac:(lia)) as [-> ->].
  change (Z.to_nat 0) with 0%nat.
  destruct adOffset as [off|]; simpl; rewrite for_loop_shift; f_equal;
    apply for_loop_ext; intros j [dL dW] _; by rewrite !lookup_drop.
Qed.

Lemma deviance_term_zero_add (y o f : double) :
  exp_annex_F → is_zero o = true →
  y * (o + f) - exp (o + f) = y * f - exp f.
Proof.
  intros Hexp. destruct o as [so| | |]; try discriminate. intros _.
  destruct f as [sf| | |]; try done.
  assert (∀ s, y * S754_zero s - of_int 1 = y * S754_zero false - of_int 1) as Hy.
  { intros s. change (of_int 1) with (S754_finite false 4503599627370496 (-52)).
    by destruct y as [[]|[]| |[]], s. }
  destruct so, sf; unfold dadd; simpl; rewrite !Hexp; try done;
    by rewrite (Hy true).
Qed.

Lemma exp_zero_add_any (f o o' x : double) :
  exp_annex_F → is_zero o = true → is_zero o' = true →
  exp (f + o + x) = exp (f + o' + x).
Proof.
  intros Hexp. destruct o as [so| | |]; try discriminate. intros _.
  destruct o' as [so'| | |]; try discriminate. intros _.
  destruct f as [sf| | |]; try done.
  destruct x as [sx| | |]; try (by destruct sf, so, so').
  unfold dadd; simpl. destruct sf, so, so', sx; simpl; by rewrite !Hexp.
Qed.

(** X10. With [exp(±0) = 1], an offset array of zeros is as good as none
    for [ComputeWorkingResponse], [Deviance] and [BagImprovement]. *)
Theorem zero_offset_is_no_offset
    (adY adMisc : list double) (off : list double)
    (adF adZ adWeight adFadj : list double) (afInBag : list Z)
    (dStepSize : double) (nTrain cLength : nat) (cIdxOff : Z) :
  exp_annex_F →
  ((∀ i, (i < nTrain)%nat → ∃ o, off !! i = Some o ∧ is_zero o = true) →
   ComputeWorkingResponse adY adMisc (Some off) adF adZ adWeight afInBag nTrain cIdxOff
   = ComputeWorkingResponse adY adMisc None adF adZ adWeight afInBag nTrain cIdxOff)
  ∧
  ((∀ i, in_Deviance_range cLength cIdxOff i →
         ∃ o, off !! i = Some o ∧ is_zero o = true) →
   Deviance adY adMisc (Some off) adWeight adF cLength cIdxOff
   = Deviance adY adMisc None adWeight adF cLength cIdxOff)
  ∧
  ((∀ i, (i < nTrain)%nat → ∃ o, off !! i = Some o ∧ is_zero o = true) →
   BagImprovement adY adMisc (Some off) adWeight adF adFadj afInBag dStepSize nTrain
   = BagImprovement adY adMisc None adWeight adF adFadj afInBag dStepSize nTrain).
Proof.
  intros Hexp. split; [|split]; intros Hzero.
  - unfold ComputeWorkingResponse. apply for_loop_ext. intros j z Hj.
    destruct (Hzero j ltac:(lia)) as (o & Ho & Hz). simpl. rewrite Ho.
    destruct (adF !! j) as [f|]; simpl; [|done].
    destruct (adY !! j) as [y|]; simpl; [|done].
    by rewrite (exp_add_zero f o), (exp_add_zero f d0).
  - unfold Deviance. cbv zeta. f_equal. apply for_loop_ext. intros j [dL dW] Hj.
    destruct (Hzero j (Deviance_loop_range _ _ _ Hj)) as (o & Ho & Hz). rewrite Ho.
    destruct (adWeight !! j) as [w|]; simpl; [|done].
    destruct (adY !! j) as [y|]; simpl; [|done].
    destruct (adF !! j) as [f|]; simpl; [|done].
    by rewrite deviance_term_zero_add.
  - unfold BagImprovement. f_equal. apply for_loop_ext. intros j [r w] Hj.
    destruct (Hzero j ltac:(lia)) as (o & Ho & Hz). simpl. rewrite Ho.
    destruct (afInBag !! j) as [b|]; simpl; [|done].
    destruct (b =? 0)%Z; [|done].
    destruct (adF !! j) as [f|]; simpl; [|done].
    destruct (adWeight !! j) as [wj|]; simpl; [|done].
    destruct (adY !! j) as [y|]; simpl; [|done].
    destruct (adFadj !! j) as [a|]; simpl; [|done].
    by rewrite (exp_add_zero f o), (exp_add_zero f d0),
      (exp_zero_add_any f o d0 (dStepSize * a)).
Qed.

(** X11. The in-bag flags are read as booleans: [BagImprovement] and
    [FitBestConstant] tell a flag that is zero from one that is not, and
    nothing more. *)
Theorem bag_flags_are_booleans
    (this : CPoisson) (adY adMisc : list double) (adOffset : option (list double))
    (adW adF adZ adFadj : list double) (aiNodeAssign : list nat) (nTrain : nat)
    (vecpTermNodes : list (option nat)) (cTermNodes cMinObsInNode : nat)
    (afInBag afInBag' : list Z) (dStepSize : double) (cIdxOff : Z)
    (nodes : list CNodeTerminal) :
  Forall2 (λ b b', b = 0%Z ↔ b' = 0%Z) afInBag afInBag' →
  BagImprovement adY adMisc adOffset adW adF adFadj afInBag dStepSize nTrain
  = BagImprovement adY adMisc adOffset adW adF adFadj afInBag' dStepSize nTrain
  ∧ FitBestConstant this adY adMisc adOffset adW adF adZ aiNodeAssign nTrain
      vecpTermNodes cTermNodes cMinObsInNode afInBag adFadj cIdxOff nodes
    = FitBestConstant this adY adMisc adOffset adW adF adZ aiNodeAssign nTrain
        vecpTermNodes cTermNodes cMinObsInNode afInBag' adFadj cIdxOff nodes.
Proof.
  intros Hflags.
  assert (∀ j, (∃ b b', afInBag !! j = Some b ∧ afInBag' !! j = Some b'
                        ∧ (b =? 0)%Z = (b' =? 0)%Z)
               ∨ (afInBag !! j = None ∧ afInBag' !! j = None)) as Hat.
  { intros j. destruct (proj1 (Forall2_lookup _ _ _) Hflags j) as [b b' Hbb'|].
    - left. exists b, b'. do 2 (split; [done |]).
      destruct (Z.eqb_spec b 0), (Z.eqb_spec b' 0); tauto.
    - by right. }
  split.
  - unfold BagImprovement. f_equal. apply for_loop_ext. intros j [r w] _.
    destruct (Hat j) as [(b & b' & -> & -> & Hbb')|[-> ->]]; [|done].
    simpl. by rewrite Hbb'.
  - unfold FitBestConstant. cbv zeta.
    assert (∀ s, accumulate_nodes s adY adOffset adW adF aiNodeAssign nTrain afInBag
                 = accumulate_nodes s adY adOffset adW adF aiNodeAssign nTrain afInBag')
      as -> ; [|done].
    intros s. unfold accumulate_nodes.
    destruct adOffset as [off|]; apply for_loop_ext; intros j t _;
      (destruct (Hat j) as [(b & b' & -> & -> & Hbb')|[-> ->]]; [|done]);
      simpl; by rewrite Hbb'.
Qed.

(** Every node has a last handle designating it, or none. *)
Lemma last_handle (vecpTermNodes : list (option nat)) (a n : nat) :
  (∃ i, (i < n)%nat ∧ vecpTermNodes !! i = Some (Some a)
        ∧ ∀ i', (i < i' < n)%nat → vecpTermNodes !! i' ≠ Some (Some a))
  ∨ (∀ i, (i < n)%nat → vecpTermNodes !! i ≠ Some (Some a)).
Proof.
  induction n as [|n IH].
  - right. intros i Hi. lia.
  - destruct (decide (vecpTermNodes !! n = Some (Some a))) as [Hn|Hn].
    + left. exists n. split; [lia |]. split; [done |]. intros i' Hi'. lia.
    + destruct IH as [(i & Hi & Ha & Hlast)|Hnone].
      * left. exists i. split; [lia |]. split; [done |]. intros i' Hi'.
        destruct (decide (i' = n)) as [->|Hne]; [done |]. apply Hlast. lia.
      * right. intros i Hi. destruct (decide (i = n)) as [->|Hne]; [done |].
        apply Hnone. lia.
Qed.

(** X12. [FitBestConstant] is idempotent: called again on the object and the
    nodes it has left, with the same arguments, it leaves them as they
    are. *)
Theorem FitBestConstant_idempotent
    (this : CPoisson) (adY adMisc : list double) (adOffset : option (list double))
    (adW adF adZ : list double) (aiNodeAssign : list nat) (nTrain : nat)
    (vecpTermNodes : list (option nat)) (cTermNodes cMinObsInNode : nat)
    (afInBag : list Z) (adFadj : list double) (cIdxOff : Z)
    (nodes : list CNodeTerminal) :
  FitBestConstant_pre_shared adY adOffset adW adF aiNodeAssign nTrain vecpTermNodes
    cTermNodes afInBag nodes →
  ∃ this' nodes',
    FitBestConstant this adY adMisc adOffset adW adF adZ aiNodeAssign nTrain
      vecpTermNodes cTermNodes cMinObsInNode afInBag adFadj cIdxOff nodes
    = Some (this', nodes')
    ∧ FitBestConstant this' adY adMisc adOffset adW adF adZ aiNodeAssign nTrain
        vecpTermNodes cTermNodes cMinObsInNode afInBag adFadj cIdxOff nodes'
      = Some (this', nodes').
Proof.
  intros Hpre.
  destruct (FitBestConstant_run_shared this adY adMisc adOffset adW adF adZ
    aiNodeAssign nTrain vecpTermNodes cTermNodes cMinObsInNode afInBag adFadj
    cIdxOff nodes Hpre) as (nodes' & Hrun & Hlen & Hpred & Hframe).
  assert (FitBestConstant_pre_shared adY adOffset adW adF aiNodeAssign nTrain
            vecpTermNodes cTermNodes afInBag nodes') as Hpre'.
  { destruct Hpre as (H1 & H2 & H3 & H4 & H5 & H6 & H7 & H8 & H9).
    repeat split; try done. intros i a Hi Ha. rewrite Hlen. by apply (H9 i). }
  destruct (FitBestConstant_run_shared
    (scratch_at adY adOffset adW adF aiNodeAssign cTermNodes afInBag nTrain)
    adY adMisc adOffset adW adF adZ
    aiNodeAssign nTrain vecpTermNodes cTermNodes cMinObsInNode afInBag adFadj
    cIdxOff nodes' Hpre') as (nodes'' & Hrun' & Hlen' & Hpred' & Hframe').
  eexists _, nodes'. split; [exact Hrun |]. rewrite Hrun'. do 2 f_equal.
  apply list_eq. intros a.
  destruct (last_handle vecpTermNodes a cTermNodes) as [(i & Hi & Ha & Hlast)|Hnone].
  - specialize (Hpred i a Hi Ha Hlast). specialize (Hpred' i a Hi Ha Hlast).
    unfold get_dPrediction in *.
    destruct (nodes' !! a) as [[p]|], (nodes'' !! a) as [[p']|]; simpl in *;
      congruence.
  - by apply Hframe'.
Qed.

Lemma map_filter_ext {A : Type} (P : nat → Prop) `{!∀ i, Decision (P i)}
    (g h : nat → A) (l : list nat) :
  (∀ i, i ∈ l → P i → g i = h i) → map g (filter P l) = map h (filter P l).
Proof.
  intros Hgh. apply map_ext_in. intros i Hi.
  apply list_elem_of_In, list_elem_of_filter in Hi as [HP Hin]. by apply Hgh.
Qed.

(** X13. The prediction of a node is computed from the observations
    assigned to it and from nothing else: two calls that differ in the
    responses, weights, scores and offsets of the other observations, in the
    object and in the nodes' store leave the same prediction in the node. *)
Theorem FitBestConstant_node_local
    (this this2 : CPoisson) (adY adMisc adY2 adMisc2 : list double)
    (adOffset adOffset2 : option (list double))
    (adW adF adZ adW2 adF2 adZ2 : list double) (aiNodeAssign : list nat) (nTrain : nat)
    (vecpTermNodes : list (option nat)) (cTermNodes cMinObsInNode cMinObsInNode2 : nat)
    (afInBag : list Z) (adFadj adFadj2 : list double) (cIdxOff cIdxOff2 : Z)
    (nodes nodes2 : list CNodeTerminal) (iNode a : nat) :
  FitBestConstant_pre adY adOffset adW adF aiNodeAssign nTrain vecpTermNodes
    cTermNodes afInBag nodes →
  FitBestConstant_pre adY2 adOffset2 adW2 adF2 aiNodeAssign nTrain vecpTermNodes
    cTermNodes afInBag nodes2 →
  (iNode < cTermNodes)%nat →
  vecpTermNodes !! iNode = Some (Some a) →
  (∀ i, (i < nTrain)%nat → aiNodeAssign !!! i = iNode →
        adY !! i = adY2 !! i ∧ adW !! i = adW2 !! i ∧ adF !! i = adF2 !! i
        ∧ same_offset_at adOffset adOffset2 i) →
  (is_Some adOffset ↔ is_Some adOffset2) →
  ∃ r r2,
    FitBestConstant this adY adMisc adOffset adW adF adZ aiNodeAssign nTrain
      vecpTermNodes cTermNodes cMinObsInNode afInBag adFadj cIdxOff nodes = Some r
    ∧ FitBestConstant this2 adY2 adMisc2 adOffset2 adW2 adF2 adZ2 aiNodeAssign nTrain
        vecpTermNodes cTermNodes cMinObsInNode2 afInBag adFadj2 cIdxOff2 nodes2 = Some r2
    ∧ is_Some (get_dPrediction r.2 a)
    ∧ get_dPrediction r.2 a = get_dPrediction r2.2 a.
Proof.
  intros Hpre Hpre2 Hi Ha Hsame Hboth.
  destruct (FitBestConstant_run adY adMisc adOffset adW adF adZ aiNodeAssign nTrain
    vecpTermNodes cTermNodes cMinObsInNode afInBag adFadj cIdxOff nodes Hpre this)
    as (nodes' & Hrun & _ & Hpred & _).
  destruct (FitBestConstant_run adY2 adMisc2 adOffset2 adW2 adF2 adZ2 aiNodeAssign
    nTrain vecpTermNodes cTermNodes cMinObsInNode2 afInBag adFadj2 cIdxOff2 nodes2
    Hpre2 this2) as (nodes2' & Hrun2 & _ & Hpred2 & _).
  eexists _, _. split; [exact Hrun |]. split; [exact Hrun2 |]. simpl.
  rewrite (Hpred iNode a Hi Ha), (Hpred2 iNode a Hi Ha). split; [done |]. f_equal.
  destruct Hpre as (HY & HW & HF & _ & _ & Hoff & _).
  destruct Hpre2 as (HY2 & HW2 & HF2 & _ & _ & Hoff2 & _).
  assert (∀ i, (i < nTrain)%nat → aiNodeAssign !!! i = iNode →
               adY !!! i = adY2 !!! i ∧ adW !!! i = adW2 !!! i
               ∧ adF !!! i = adF2 !!! i
               ∧ eta adOffset adF i = eta adOffset2 adF2 i) as Hsame'.
  { intros i Hlt Hk. destruct (Hsame i Hlt Hk) as (Hy & Hw & Hf & Ho).
    unfold eta. destruct adOffset as [off|], adOffset2 as [off2|]; simpl in Ho;
      try done; rewrite !list_lookup_total_alt, Hy, Hw, Hf, ?Ho; done. }
  unfold node_prediction, node_num, node_den, node_in_bag, node_obs.
  rewrite (map_filter_ext _ (λ i, adW !!! i * adY !!! i)
             (λ i, adW2 !!! i * adY2 !!! i)),
    (map_filter_ext _ (λ i, adW !!! i * exp (eta adOffset adF i))
       (λ i, adW2 !!! i * exp (eta adOffset2 adF2 i))).
  - f_equal.
    + unfold clamp_max, node_max, node_obs.
      destruct adOffset as [off|], adOffset2 as [off2|]; try done;
        try (by destruct Hboth as [H1 H2];
             (destruct (H1 ltac:(done)) || destruct (H2 ltac:(done)))).
      f_equal. apply map_filter_ext. intros i Hin Hk.
      apply elem_of_seq in Hin. by destruct (Hsame' i ltac:(lia) Hk) as (_ & _ & -> & _).
    + unfold clamp_min, node_min, node_obs.
      destruct adOffset as [off|], adOffset2 as [off2|]; try done;
        try (by destruct Hboth as [H1 H2];
             (destruct (H1 ltac:(done)) || destruct (H2 ltac:(done)))).
      f_equal. apply map_filter_ext. intros i Hin Hk.
      apply elem_of_seq in Hin. by destruct (Hsame' i ltac:(lia) Hk) as (_ & _ & -> & _).
  - intros i Hin [_ Hk]. apply elem_of_seq in Hin.
    by destruct (Hsame' i ltac:(lia) Hk) as (_ & -> & _ & ->).
  - intros i Hin [_ Hk]. apply elem_of_seq in Hin.
    by destruct (Hsame' i ltac:(lia) Hk) as (-> & -> & _).
Qed.

(** X14. [ComputeWorkingResponse] only writes the first [nTrain] entries of
    [adZ], an array of its own, and never reads it: what these entries held
    before does not matter, and a second call on the result changes
    nothing. *)
Theorem ComputeWorkingResponse_overwrites
    (adY adMisc : list double) (adOffset : option (list double))
    (adF adZ adWeight : list double) (afInBag : list Z) (nTrain : nat) (cIdxOff : Z) :
  (nTrain ≤ length adY)%nat →
  (nTrain ≤ length adF)%nat →
  (nTrain ≤ length adZ)%nat →
  (∀ off, adOffset = Some off → (nTrain ≤ length off)%nat) →
  ∃ adZ',
    ComputeWorkingResponse adY adMisc adOffset adF adZ adWeight afInBag nTrain cIdxOff
      = Some adZ'
    ∧ ComputeWorkingResponse adY adMisc adOffset adF adZ' adWeight afInBag nTrain cIdxOff
      = Some adZ'
    ∧ ∀ adZ2, length adZ2 = length adZ →
        (∀ i, (nTrain ≤ i)%nat → adZ2 !! i = adZ !! i) →
        ComputeWorkingResponse adY adMisc adOffset adF adZ2 adWeight afInBag nTrain
          cIdxOff
        = Some adZ'.
Proof.
  intros HY HF HZ Hoff.
  destruct (ComputeWorkingResponse_run adY adMisc adOffset adF adZ adWeight afInBag
    nTrain cIdxOff HY HF HZ Hoff) as (adZ' & Hrun & Hlen & Hlo & Hhi & _).
  assert (∀ adZ2, length adZ2 = length adZ →
            (∀ i, (nTrain ≤ i)%nat → adZ2 !! i = adZ !! i) →
            ComputeWorkingResponse adY adMisc adOffset adF adZ2 adWeight afInBag nTrain
              cIdxOff
            = Some adZ') as Hany.
  { intros adZ2 Hlen2 Hsame.
    destruct (ComputeWorkingResponse_run adY adMisc adOffset adF adZ2 adWeight afInBag
      nTrain cIdxOff HY HF ltac:(lia) Hoff) as (adZ2' & Hrun2 & _ & Hlo2 & Hhi2 & _).
    rewrite Hrun2. f_equal. apply list_eq. intros i.
    destruct (decide (i < nTrain)%nat) as [Hi|Hi].
    - by rewrite Hlo, Hlo2.
    - by rewrite Hhi, Hhi2, Hsame by lia. }
  exists adZ'. split; [done |]. split; [|done].
  apply Hany; [done |]. intros i Hi. by apply Hhi.
Qed.

(** X15. [InitF] reads the first [cLength] responses, weights and offsets
    and nothing else: changing the arrays from index [cLength] on, or
    [adMisc], does not change the result.  On no observation at all
    ([cLength = 0]) it returns [log(0.0/0.0)], the logarithm of NaN. *)
Theorem InitF_reads_prefix_only
    (adY adMisc adY' adMisc' : list double) (adOffset adOffset' : option (list double))
    (adWeight adWeight' : list double) (cLength : nat) :
  ((∀ i, (i < cLength)%nat →
         adY !! i = adY' !! i ∧ adWeight !! i = adWeight' !! i
         ∧ same_offset_at adOffset adOffset' i) →
   (is_Some adOffset ↔ is_Some adOffset') →
   InitF adY adMisc adOffset adWeight cLength
   = InitF adY' adMisc' adOffset' adWeight' cLength)
  ∧ InitF adY adMisc adOffset adWeight 0 = Some (log S754_nan).
Proof.
  split.
  - intros Hsame Hboth. unfold InitF. f_equal.
    destruct adOffset as [off|], adOffset' as [off'|];
      try (by destruct Hboth as [H1 H2];
           (destruct (H1 ltac:(done)) || destruct (H2 ltac:(done))));
      apply for_loop_ext; intros j [dSum dDenom] Hj;
      destruct (Hsame j ltac:(lia)) as (-> & -> & Ho); simpl in Ho;
      by rewrite ?Ho.
  - unfold InitF. by destruct adOffset.
Qed.

End Poisson.

(** ** Concrete runs

    The theorems above at concrete inputs, and the inputs at which the
    specification's sentences fail.  The runs use [exp_special] and
    [log_special]; the lemmas they rest on hold for every [exp] and [log]. *)

Lemma exp_special_annex_F : exp_annex_F exp_special.
Proof. by intros []. Qed.

Lemma log_special_annex_F : log_annex_F log_special.
Proof.
  split; [by intros [] |].
  intros x. by destruct x as [[]|[]| |[] m e].
Qed.

(** The side conditions on array sizes, at concrete arrays. *)
Ltac solve_lengths :=
  lazymatch goal with
  | |- (_ ≤ _)%nat => simpl; lia
  | |- (_ < _)%nat => simpl; lia
  | |- (_ ≤ _)%Z => simpl; lia
  | |- (_ < _)%Z => simpl; lia
  | |- ∀ off, _ = Some off → _ => by intros ? [= <-]; simpl; lia
  end.

Lemma ComputeWorkingResponse_spec_witness :
  ∃ adZ',
    ComputeWorkingResponse exp_special ex_y [] None ex_f ex_f ex_w [1; 1; 1] 3 0
      = Some adZ'
    ∧ length adZ' = length ex_f
    ∧ (∀ i, (i < 3)%nat →
         adZ' !! i = Some (working_response exp_special ex_y None ex_f i))
    ∧ (∀ i, (3 ≤ i)%nat → adZ' !! i = ex_f !! i)
    ∧ (∀ adMisc' adWeight' afInBag' cIdxOff',
         ComputeWorkingResponse exp_special ex_y adMisc' None ex_f ex_f adWeight'
           afInBag' 3 cIdxOff'
         = Some adZ').
Proof. apply ComputeWorkingResponse_spec; solve_lengths. Defined.

(** The scenario of the specification: [y = [1, 2, 3]] and [f = [0, 0, 0]]
    give [z = [0, 1, 2]], and [InitF] takes the logarithm of [6/3 = 2]. *)
Lemma ComputeWorkingResponse_scenario (exp : double → double) :
  exp_annex_F exp →
  ComputeWorkingResponse exp ex_y [] None ex_f ex_f ex_w [1; 1; 1] 3 0
  = Some [d0; of_int 1; of_int 2].
Proof.
  intros Hexp.
  destruct (ComputeWorkingResponse_run exp ex_y [] None ex_f ex_f ex_w [1; 1; 1] 3 0)
    as (adZ' & -> & Hlen & Hlo & _); try solve_lengths.
  f_equal. apply list_eq. intros i.
  assert (∀ y, y - exp (d0 + d0) = y - of_int 1)%D as Hz
    by (intros y; change (d0 + d0)%D with (S754_zero false); by rewrite Hexp).
  destruct i as [|[|[|i]]].
  - rewrite Hlo by lia. change (Some (of_int 1 - exp (d0 + d0))%D = Some d0).
    rewrite Hz. by vm_compute.
  - rewrite Hlo by lia. change (Some (of_int 2 - exp (d0 + d0))%D = Some (of_int 1)).
    rewrite Hz. by vm_compute.
  - rewrite Hlo by lia. change (Some (of_int 3 - exp (d0 + d0))%D = Some (of_int 2)).
    rewrite Hz. by vm_compute.
  - rewrite lookup_ge_None_2 by (rewrite Hlen; simpl; lia). done.
Qed.

Lemma InitF_scenario (exp log : double → double) :
  InitF exp log ex_y [] None ex_w 3 = Some (log (of_int 2)).
Proof.
  rewrite InitF_eq by solve_lengths. unfold InitF_spec.
  by replace (InitF_num ex_y ex_w 3 / InitF_den exp None ex_w 3)%D
    with (of_int 2) by (by vm_compute).
Qed.

Lemma InitF_correct_witness :
  InitF exp_special log_special ex_y [] None ex_w 3
  = Some (log_special (dsum (map (λ i, ex_w !!! i * ex_y !!! i) (seq 0 3))
                       / dsum (map (λ i, ex_w !!! i) (seq 0 3)))%D).
Proof.
  apply (InitF_correct exp_special log_special ex_y [] None ex_w 3); solve_lengths.
Defined.

Lemma Deviance_correct_witness :
  Deviance exp_special ex_y [] (Some ex_f) ex_w ex_f 2 1
    = Some (of_int (-2)
            * dsum (map (λ i, ex_w !!! i
                              * (ex_y !!! i * eta (Some ex_f) ex_f i
                                 - exp_special (eta (Some ex_f) ex_f i))) (seq 1 2))
            / dsum (map (λ i, ex_w !!! i) (seq 1 2)))%D
  ∧ Deviance exp_special ex_y [] (Some ex_f) ex_w ex_f 2 1
    = Some (of_int (-2)
            * dsum (map (λ i, ex_w !!! i
                              * (ex_y !!! i * (ex_f !!! i + offset_at (Some ex_f) i)
                                 - exp_special (ex_f !!! i + offset_at (Some ex_f) i)))
                      (seq 1 2))
            / dsum (map (λ i, ex_w !!! i) (seq 1 2)))%D.
Proof.
  pose proof (Deviance_correct exp_special ex_y [] (Some ex_f) ex_w ex_f 2 1
    ltac:(solve_lengths) ltac:(solve_lengths) ltac:(solve_lengths)
    ltac:(solve_lengths) ltac:(solve_lengths) ltac:(solve_lengths)) as [H1 H2].
  split; [exact H1 | exact (H2 exp_special_annex_F)].
Defined.

(** A shift that is exact: [offset = 2], [f = 1] and [s = 1]. *)
Lemma Deviance_shift_exact_witness :
  Deviance exp_special ex_y [] (Some ((λ o, o - of_int 1)%D <$> [of_int 2])) ex_w
    ((λ f, f + of_int 1)%D <$> [of_int 1]) 1 0
  = Deviance exp_special ex_y [] (Some [of_int 2]) ex_w [of_int 1] 1 0
  ∧ Deviance exp_special ex_y [] (Some ((λ o, o + of_int 1)%D <$> [of_int 2])) ex_w
      ((λ f, f - of_int 1)%D <$> [of_int 1]) 1 0
    = Deviance exp_special ex_y [] (Some [of_int 2]) ex_w [of_int 1] 1 0.
Proof.
  destruct (Deviance_shift_exact exp_special ex_y [] [of_int 2] ex_w [of_int 1]
              (of_int 1) 1 0) as [H1 H2].
  split; [apply H1 | apply H2]; intros [|i] o f _ Ho Hf;
    [| discriminate Ho | | discriminate Ho];
    change (Some (of_int 2) = Some o) in Ho;
    change (Some (of_int 1) = Some f) in Hf;
    injection Ho as <-; injection Hf as <-; by vm_compute.
Defined.

(** The shift by 2^60 is not exact: [-3 + 2^60] rounds to [2^60], so the
    shifted [f] and [offset] add up to [0] where the original ones add up to
    [-3]; with [y = 2^1023] the deviance moves from [+∞] to [2], whatever
    finite value [exp(-3)] is. *)
Lemma Deviance_shift_rounds (exp : double → double) :
  exp_annex_F exp →
  is_finite (exp (of_int (-3))) = true →
  Deviance exp [two_1023] [] (Some [d0]) [of_int 1] [of_int (-3)] 1 0
  = Some (S754_infinity false)
  ∧ Deviance exp [two_1023] [] (Some ((λ o, o - two_60)%D <$> [d0])) [of_int 1]
      ((λ f, f + two_60)%D <$> [of_int (-3)]) 1 0
    = Some (of_int 2).
Proof.
  intros Hexp Hfin.
  assert (∀ e, is_finite e = true →
            (of_int (-2) * (d0 + of_int 1 * (two_1023 * (of_int (-3) + d0) - e))
             / (d0 + of_int 1))%D = S754_infinity false) as Hinf.
  { intros e He.
    replace (two_1023 * (of_int (-3) + d0))%D with (S754_infinity true)
      by (by vm_compute).
    replace (d0 + of_int 1)%D with (of_int 1) by (by vm_compute).
    destruct e; try discriminate; by vm_compute. }
  split.
  - rewrite Deviance_eq by solve_lengths.
    unfold Deviance_spec, dsum, eta. cbn [seq map fold_left Z.to_nat]. f_equal.
    change (exp _) with (exp (of_int (-3))). exact (Hinf _ Hfin).
  - rewrite Deviance_eq by solve_lengths.
    unfold Deviance_spec, dsum, eta. cbn [seq map fold_left Z.to_nat]. f_equal.
    change (exp _) with (exp (S754_zero false)). rewrite (Hexp false). by vm_compute.
Qed.

Lemma Deviance_shift_counterexample :
  Deviance exp_special [two_1023] [] (Some [d0]) [of_int 1] [of_int (-3)] 1 0
  = Some (S754_infinity false)
  ∧ Deviance exp_special [two_1023] [] (Some ((λ o, o - two_60)%D <$> [d0]))
      [of_int 1] ((λ f, f + two_60)%D <$> [of_int (-3)]) 1 0
    = Some (of_int 2).
Proof. apply Deviance_shift_rounds; [apply exp_special_annex_F | done]. Qed.

Lemma BagImprovement_zero_step_witness :
  ∃ v, BagImprovement exp_special ex_y [] None ex_w ex_f ex_w ex_bag d0 3 = Some v
       ∧ is_zero v = true ∧ deqb v d0 = true.
Proof.
  apply BagImprovement_zero_step;
    [apply exp_special_annex_F | done | solve_lengths.. | | by vm_compute | by vm_compute].
  change (out_of_bag ex_bag 3) with [1%nat].
  constructor; [| constructor]. repeat split; by vm_compute.
Defined.

(** With every observation in the bag nothing is summed and the result is
    [0.0/0.0], whatever the step size and whatever [exp] is. *)
Lemma BagImprovement_all_in_bag (exp : double → double) :
  BagImprovement exp ex_y [] None ex_w ex_f ex_w [1; 1; 1] d0 3 = Some S754_nan.
Proof.
  rewrite BagImprovement_eq by solve_lengths. unfold BagImprovement_spec.
  by change (out_of_bag [1; 1; 1] 3) with (@nil nat).
Qed.

Lemma BagImprovement_zero_step_counterexample :
  BagImprovement exp_special ex_y [] None ex_w ex_f ex_w [1; 1; 1] d0 3
  = Some S754_nan
  ∧ deqb S754_nan d0 = false.
Proof. split; [apply BagImprovement_all_in_bag | done]. Qed.

Lemma non_finite_results_are_returned_witness :
  (∃ v, InitF exp_special log_special [d0] [] None [of_int 1] 1 = Some v
        ∧ (let arg := (InitF_num [d0] [of_int 1] 1
                       / InitF_den exp_special None [of_int 1] 1)%D in
           is_zero arg = true ∨ dltb arg d0 = true → is_finite v = false))
  ∧ (∃ v, Deviance exp_special [d0] [] None [of_int 1] [d0] 0 0 = Some v
          ∧ (is_zero (dsum (map (λ i, [of_int 1] !!! i) (seq (Z.to_nat 0) 0))) = true →
             is_finite v = false))
  ∧ (∃ v, BagImprovement exp_special [d0] [] None [of_int 1] [d0] [d0] [1] d0 1
            = Some v
          ∧ (is_zero (dsum (map (λ i, [of_int 1] !!! i) (out_of_bag [1] 1))) = true →
             is_finite v = false)
          ∧ ((∀ i, (i < 1)%nat → [1] !!! i ≠ 0) → v = S754_nan)).
Proof.
  destruct (non_finite_results_are_returned exp_special log_special
              [d0] [] None [of_int 1] [d0] [d0] [1] d0 1 0 1 0 log_special_annex_F)
    as (HI & HD & HB).
  split; [apply HI; solve_lengths |].
  split; [apply HD; solve_lengths | apply HB; solve_lengths].
Defined.

(** Three observations, the first two in node 0 and the third in node 1, the
    second one out of the bag; the in-bag numerator of node 0 is zero. *)
Lemma ex_pre (adOffset : option (list double)) :
  (∀ off, adOffset = Some off → (3 ≤ length off)%nat) →
  FitBestConstant_pre ex_y0 adOffset ex_w ex_f ex_assign 3 ex_handles 2 ex_bag ex_nodes.
Proof.
  intros Hoff. unfold FitBestConstant_pre.
  repeat (split; [solve_lengths || exact Hoff |]).
  split; [intros [|[|[|i]]] Hi; simpl; lia |].
  split; [solve_lengths |].
  split.
  - intros [|[|i]] a Hi Ha; try lia;
      [change (Some (Some 0%nat) = Some (Some a)) in Ha
      |change (Some (Some 1%nat) = Some (Some a)) in Ha];
      injection Ha as <-; simpl; lia.
  - intros [|[|i]] [|[|i']] a Hi Hi' Ha Ha'; try lia; try done;
      [change (Some (Some 0%nat) = Some (Some a)) in Ha;
       change (Some (Some 1%nat) = Some (Some a)) in Ha'
      |change (Some (Some 1%nat) = Some (Some a)) in Ha;
       change (Some (Some 0%nat) = Some (Some a)) in Ha']; congruence.
Qed.

Lemma FitBestConstant_degenerate_witness :
  ∃ this' nodes',
    FitBestConstant exp_special log_special ex_this ex_y0 [] None ex_w ex_f []
      ex_assign 3 ex_handles 2 0 ex_bag [] 0 ex_nodes
    = Some (this', nodes')
    ∧ ∀ iNode a, (iNode < 2)%nat →
        ex_handles !! iNode = Some (Some a) →
        let num := node_num ex_w ex_y0 ex_bag ex_assign 3 iNode in
        let den := node_den exp_special None ex_w ex_f ex_bag ex_assign 3 iNode in
        let mx := clamp_max None ex_f ex_assign 3 iNode in
        let mn := clamp_min None ex_f ex_assign 3 iNode in
        let within v :=
          ISNAN (of_int 19 - mx)%D = false ∧ ISNAN (of_int (-19) - mn)%D = false
          ∧ dltb (of_int 19 - mx)%D v = false
          ∧ dltb v (of_int (-19) - mn)%D = false in
        (deqb num d0 = true →
           get_dPrediction nodes' a = Some (clamp (- of_int 19) mx mn)
           ∧ (is_Some (@None (list double)) →
              get_dPrediction nodes' a = Some (- of_int 19)%D)
           ∧ (within (- of_int 19)%D →
              get_dPrediction nodes' a = Some (- of_int 19)%D))
        ∧ (deqb num d0 = false → deqb den d0 = true →
           get_dPrediction nodes' a = Some (clamp d0 mx mn)
           ∧ (is_Some (@None (list double)) → get_dPrediction nodes' a = Some d0)
           ∧ (within d0 → is_zero (clamp d0 mx mn) = true)).
Proof. apply FitBestConstant_degenerate. by apply ex_pre. Defined.

(** One in-bag observation with [y = 0] and [f = -1]: the numerator of its
    node is zero, the prediction is set to [-19.0], and the lower clamp
    [-19 - (-1) = -18] replaces it, whatever [exp] and [log] are. *)
Lemma FitBestConstant_floor_is_clamped (exp log : double → double) :
  snd <$> FitBestConstant exp log ex_this [d0] [] None [of_int 1] [of_int (-1)] []
            [0%nat] 1 [Some 0%nat] 1 0 [1] [] 0 [{| dPrediction := d0 |}]
  = Some [{| dPrediction := of_int (-18) |}].
Proof. by vm_compute. Qed.

Lemma FitBestConstant_degenerate_counterexample :
  node_num [of_int 1] [d0] [1] [0%nat] 1 0 = d0
  ∧ snd <$> FitBestConstant exp_special log_special ex_this [d0] [] None [of_int 1]
              [of_int (-1)] [] [0%nat] 1 [Some 0%nat] 1 0 [1] [] 0
              [{| dPrediction := d0 |}]
    = Some [{| dPrediction := of_int (-18) |}]
  ∧ deqb (of_int (-18)) (- of_int 19) = false.
Proof.
  split; [by vm_compute |]. split; [apply FitBestConstant_floor_is_clamped | by vm_compute].
Qed.

Lemma FitBestConstant_clamp_witness :
  ∃ this' nodes',
    FitBestConstant exp_special log_special ex_this ex_y0 [] None ex_w ex_f []
      ex_assign 3 ex_handles 2 0 ex_bag [] 0 ex_nodes
    = Some (this', nodes')
    ∧ ∀ iNode a, (iNode < 2)%nat →
        ex_handles !! iNode = Some (Some a) →
        ∃ p, get_dPrediction nodes' a = Some p
          ∧ let nodeMax := node_max ex_f ex_assign 3 iNode in
            let nodeMin := node_min ex_f ex_assign 3 iNode in
            vecdMax this' !! iNode = Some nodeMax
            ∧ vecdMin this' !! iNode = Some nodeMin
            ∧ (Forall (λ i, ISNAN (ex_f !!! i) = false) (node_obs ex_assign 3 iNode) →
               ∀ i, (i < 3)%nat → ex_assign !!! i = iNode →
                    dltb nodeMax (ex_f !!! i) = false
                    ∧ dltb (ex_f !!! i) nodeMin = false)
            ∧ dltb p (of_int (-19) - nodeMin) = false
            ∧ (ISNAN p = false → dleb (of_int (-19) - nodeMin) p = true)
            ∧ (dltb (of_int 19 - nodeMax) (of_int (-19) - nodeMin) = false →
               dltb (of_int 19 - nodeMax) p = false
               ∧ (ISNAN p = false → dleb p (of_int 19 - nodeMax) = true)).
Proof. apply FitBestConstant_clamp. by apply ex_pre. Defined.

(** Two observations of one node with [f = 20] and [f = -20]: the bounds
    [19 - 20 = -1] and [-19 - (-20) = 1] conflict, the lower one is applied
    last, and the node ends with the prediction [1], whatever [exp] and [log]
    are. *)
Lemma FitBestConstant_bounds_conflict (exp log : double → double) :
  snd <$> FitBestConstant exp log ex_this [d0; d0] [] None [of_int 1; of_int 1]
            [of_int 20; of_int (-20)] [] [0%nat; 0%nat] 2 [Some 0%nat] 1 0 [1; 1] [] 0
            [{| dPrediction := d0 |}]
  = Some [{| dPrediction := of_int 1 |}].
Proof. by vm_compute. Qed.

Lemma FitBestConstant_clamp_counterexample :
  snd <$> FitBestConstant exp_special log_special ex_this [d0; d0] [] None
            [of_int 1; of_int 1] [of_int 20; of_int (-20)] [] [0%nat; 0%nat] 2
            [Some 0%nat] 1 0 [1; 1] [] 0 [{| dPrediction := d0 |}]
  = Some [{| dPrediction := of_int 1 |}]
  ∧ node_max [of_int 20; of_int (-20)] [0%nat; 0%nat] 2 0 = of_int 20
  ∧ (of_int 20 + of_int 1)%D = of_int 21
  ∧ dleb (of_int 21) (of_int 19) = false.
Proof.
  split; [apply FitBestConstant_bounds_conflict |]. repeat split; by vm_compute.
Qed.

(** The bounds are doubles: for [f = -(2^54 + 4)] the lower bound
    [-19 - f = 2^54 - 15] rounds to [2^54 - 16], the node ends with it, and
    adding it back to [f] gives [-20]. *)
Lemma FitBestConstant_bound_is_rounded (exp log : double → double) :
  snd <$> FitBestConstant exp log ex_this [d0] [] None [of_int 1] [ex_far] []
            [0%nat] 1 [Some 0%nat] 1 0 [1] [] 0 [{| dPrediction := d0 |}]
  = Some [{| dPrediction := (of_int (-19) - ex_far)%D |}]
  ∧ (ex_far + (of_int (-19) - ex_far))%D = of_int (-20).
Proof. split; by vm_compute. Qed.

Lemma FitBestConstant_offset_no_clamp_witness :
  ∃ this' nodes',
    FitBestConstant exp_special log_special ex_this ex_y0 [] (Some ex_f) ex_w ex_f []
      ex_assign 3 ex_handles 2 0 ex_bag [] 0 ex_nodes
    = Some (this', nodes')
    ∧ vecdMax this' = replicate 2 (- HUGE_VAL)%D
    ∧ vecdMin this' = replicate 2 HUGE_VAL
    ∧ ∀ iNode a, (iNode < 2)%nat →
        ex_handles !! iNode = Some (Some a) →
        let num := node_num ex_w ex_y0 ex_bag ex_assign 3 iNode in
        let den := node_den exp_special (Some ex_f) ex_w ex_f ex_bag ex_assign 3 iNode in
        get_dPrediction nodes' a
        = Some (if deqb num d0 then (- of_int 19)%D
                else if deqb den d0 then d0
                else log_special (num / den)%D).
Proof. apply FitBestConstant_offset_no_clamp. apply ex_pre. solve_lengths. Defined.

(** One node holding two in-bag observations with [f = 20] and [f = -20]:
    the bounds [19 - 20 = -1] and [-19 - (-20) = 1] conflict. *)
Lemma ex_conflict_pre :
  FitBestConstant_pre [of_int 1; of_int 2] None [of_int 1; of_int 1]
    [of_int 20; of_int (-20)] [0%nat; 0%nat] 2 [Some 0%nat] 1 [1; 1]
    [{| dPrediction := d0 |}].
Proof.
  unfold FitBestConstant_pre.
  do 5 (split; [solve_lengths |]). split; [done |].
  split; [intros [|[|i]] Hi; simpl; lia |].
  split; [solve_lengths |].
  split.
  - intros [|i] a Hi Ha; [|lia].
    change (Some (Some 0%nat) = Some (Some a)) in Ha. injection Ha as <-. simpl. lia.
  - intros i i' a Hi Hi' _ _. lia.
Qed.

Lemma FitBestConstant_clamp_order_witness :
  ∃ this' nodes' p,
    FitBestConstant exp_special log_special ex_this [of_int 1; of_int 2] [] None
      [of_int 1; of_int 1] [of_int 20; of_int (-20)] [] [0%nat; 0%nat] 2 [Some 0%nat] 1
      0 [1; 1] [] 0 [{| dPrediction := d0 |}]
    = Some (this', nodes')
    ∧ vecdMax this' !! 0%nat = Some (of_int 20)
    ∧ vecdMin this' !! 0%nat = Some (of_int (-20))
    ∧ get_dPrediction nodes' 0 = Some p
    ∧ p = (of_int (-19) - of_int (-20))%D
    ∧ p ≠ (of_int 19 - of_int 20)%D.
Proof.
  destruct (FitBestConstant_clamp_order exp_special log_special ex_this
    [of_int 1; of_int 2] [] None [of_int 1; of_int 1] [of_int 20; of_int (-20)] []
    [0%nat; 0%nat] 2 [Some 0%nat] 1 0 [1; 1] [] 0 [{| dPrediction := d0 |}]
    ex_conflict_pre) as (this' & nodes' & Hrun & Hnode).
  destruct (Hnode 0%nat 0%nat ltac:(lia) eq_refl)
    as (_ & _ & Hmax & Hmin & p & Hp & _ & _ & _ & _ & Hconf).
  change (node_max [of_int 20; of_int (-20)] [0%nat; 0%nat] 2 0) with (of_int 20)
    in Hmax, Hconf.
  change (node_min [of_int 20; of_int (-20)] [0%nat; 0%nat] 2 0) with (of_int (-20))
    in Hmin, Hconf.
  destruct Hconf as (Hlower & _ & Hupper); [by vm_compute | by vm_compute |].
  by exists this', nodes', p.
Defined.

(** One in-bag observation with [y = -1], unit weight and [f = 0]: the
    numerator is [-1], the denominator [exp(0) = 1], the unclamped value
    [log(-1)] is NaN, both clamps pass it on, and the node ends with NaN,
    which is not above or equal to the lower bound [-19 - 0]. *)
Lemma FitBestConstant_nan_prediction (exp log : double → double) :
  exp_annex_F exp → log_annex_F log →
  snd <$> FitBestConstant exp log ex_this [of_int (-1)] [] None [of_int 1] [d0] []
            [0%nat] 1 [Some 0%nat] 1 0 [1] [] 0 [{| dPrediction := d0 |}]
  = Some [{| dPrediction := S754_nan |}].
Proof.
  intros Hexp [_ Hneg].
  assert (FitBestConstant_pre [of_int (-1)] None [of_int 1] [d0] [0%nat] 1
            [Some 0%nat] 1 [1] [{| dPrediction := d0 |}]) as Hpre.
  { unfold FitBestConstant_pre.
    do 5 (split; [solve_lengths |]). split; [done |].
    split; [intros [|i] Hi; simpl; lia |].
    split; [solve_lengths |].
    split.
    - intros [|i] a Hi Ha; [|lia].
      change (Some (Some 0%nat) = Some (Some a)) in Ha. injection Ha as <-. simpl. lia.
    - intros i i' a Hi Hi' _ _. lia. }
  destruct (FitBestConstant_run exp log [of_int (-1)] [] None [of_int 1] [d0] []
    [0%nat] 1 [Some 0%nat] 1 0 [1] [] 0 [{| dPrediction := d0 |}] Hpre ex_this)
    as (nodes' & -> & Hlen & Hpred & _).
  simpl. f_equal.
  specialize (Hpred 0%nat 0%nat ltac:(lia) eq_refl).
  assert (node_prediction exp log [of_int (-1)] None [of_int 1] [d0] [0%nat] 1 [1] 0
          = S754_nan) as Hnan.
  { unfold node_prediction, unclamped.
    change (node_num [of_int 1] [of_int (-1)] [1] [0%nat] 1 0) with (of_int (-1)).
    change (node_den exp None [of_int 1] [d0] [1] [0%nat] 1 0)
      with (d0 + of_int 1 * exp (S754_zero false))%D.
    rewrite Hexp.
    change (d0 + of_int 1 * of_int 1)%D with (of_int 1).
    change (deqb (of_int (-1)) d0) with false.
    change (deqb (of_int 1) d0) with false. cbv iota.
    rewrite (Hneg (of_int (-1) / of_int 1)%D) by (by vm_compute).
    by vm_compute. }
  rewrite Hnan in Hpred. unfold get_dPrediction in Hpred.
  destruct nodes' as [|[p] [|n nodes']]; try discriminate Hlen.
  simpl in Hpred. by injection Hpred as ->.
Qed.

Lemma FitBestConstant_clamp_order_counterexample :
  snd <$> FitBestConstant exp_special log_special ex_this [of_int (-1)] [] None
            [of_int 1] [d0] [] [0%nat] 1 [Some 0%nat] 1 0 [1] [] 0
            [{| dPrediction := d0 |}]
  = Some [{| dPrediction := S754_nan |}]
  ∧ node_min [d0] [0%nat] 1 0 = d0
  ∧ dleb (of_int (-19) - d0) S754_nan = false.
Proof.
  split.
  - apply FitBestConstant_nan_prediction;
      [apply exp_special_annex_F | apply log_special_annex_F].
  - split; by vm_compute.
Qed.


(** ** Runs of the further properties *)

Lemma ex_pre_any (adY adW adF : list double) (adOffset : option (list double))
    (nodes : list CNodeTerminal) :
  (3 ≤ length adY)%nat → (3 ≤ length adW)%nat → (3 ≤ length adF)%nat →
  (∀ off, adOffset = Some off → (3 ≤ length off)%nat) →
  (2 ≤ length nodes)%nat →
  FitBestConstant_pre adY adOffset adW adF ex_assign 3 ex_handles 2 ex_bag nodes.
Proof.
  intros HY HW HF Hoff Hnodes. unfold FitBestConstant_pre.
  do 3 (split; [done |]). do 2 (split; [solve_lengths |]). split; [done |].
  split; [intros [|[|[|i]]] Hi; simpl; lia |].
  split; [solve_lengths |].
  split.
  - intros [|[|i]] a Hi Ha; try lia;
      [change (Some (Some 0%nat) = Some (Some a)) in Ha
      |change (Some (Some 1%nat) = Some (Some a)) in Ha];
      injection Ha as <-; lia.
  - intros [|[|i]] [|[|i']] a Hi Hi' Ha Ha'; try lia; try done;
      [change (Some (Some 0%nat) = Some (Some a)) in Ha;
       change (Some (Some 1%nat) = Some (Some a)) in Ha'
      |change (Some (Some 1%nat) = Some (Some a)) in Ha;
       change (Some (Some 0%nat) = Some (Some a)) in Ha']; congruence.
Qed.

(** The example with any two handles into the two nodes, shared or not. *)
Lemma ex_pre_shared (adOffset : option (list double)) (assign : list nat)
    (h0 h1 : option nat) :
  (∀ off, adOffset = Some off → (3 ≤ length off)%nat) →
  (∀ a, h0 = Some a ∨ h1 = Some a → (a < 2)%nat) →
  (3 ≤ length assign)%nat →
  (∀ i, (i < 3)%nat → (assign !!! i < 2)%nat) →
  FitBestConstant_pre_shared ex_y0 adOffset ex_w ex_f assign 3 [h0; h1] 2 ex_bag
    ex_nodes.
Proof.
  intros Hoff Hh Hlen Hassign. unfold FitBestConstant_pre_shared.
  do 4 (split; [solve_lengths |]). do 3 (split; [done |]).
  split; [solve_lengths |].
  intros [|[|i]] a Hi Ha; try lia;
    [change (Some h0 = Some (Some a)) in Ha|change (Some h1 = Some (Some a)) in Ha];
    injection Ha as ->; apply Hh; tauto.
Qed.

Ltac solve_handles :=
  lazymatch goal with
  | |- ∀ a, _ ∨ _ → _ => intros ? [[= <-]|[= <-]]; lia
  | |- ∀ i, (i < 3)%nat → (_ !!! i < 2)%nat =>
      intros [|[|[|?]]] ?; try lia; vm_compute; lia
  | |- _ => solve_lengths
  end.

Lemma FitBestConstant_frame_witness :
  ∃ this' nodes',
    FitBestConstant exp_special log_special ex_this ex_y0 [] None ex_w ex_f []
      ex_assign 3 [None; Some 1%nat] 2 0 ex_bag [] 0 ex_nodes
    = Some (this', nodes')
    ∧ length nodes' = length ex_nodes
    ∧ nodes' !! 0%nat = ex_nodes !! 0%nat.
Proof.
  destruct (FitBestConstant_frame exp_special log_special ex_this ex_y0 [] None ex_w
    ex_f [] ex_assign 3 [None; Some 1%nat] 2 0 ex_bag [] 0 ex_nodes)
    as (this' & nodes' & Hrun & Hlen & Hframe & _).
  - apply ex_pre_shared; solve_handles.
  - exists this', nodes'. split; [exact Hrun |]. split; [exact Hlen |].
    apply Hframe. intros [|[|i]] Hi; try lia; discriminate.
Defined.

Lemma FitBestConstant_scratch_witness :
  ∃ this' nodes',
    FitBestConstant exp_special log_special ex_this ex_y0 [] None ex_w ex_f []
      ex_assign 3 ex_handles 2 0 ex_bag [] 0 ex_nodes
    = Some (this', nodes')
    ∧ length (vecdNum this') = 2%nat
    ∧ vecdNum this' !! 1%nat
      = Some (dsum (map (λ i, ex_w !!! i * ex_y0 !!! i)%D (node_in_bag ex_bag ex_assign 3 1)))
    ∧ vecdMax this' !! 0%nat
      = Some (dmax_list (map (λ i, ex_f !!! i) (node_obs ex_assign 3 0))).
Proof.
  destruct (FitBestConstant_scratch exp_special log_special ex_this ex_y0 [] None ex_w
    ex_f [] ex_assign 3 ex_handles 2 0 ex_bag [] 0 ex_nodes)
    as (this' & nodes' & Hrun & _ & Hlen & _ & _ & _ & Hat).
  - apply ex_pre_shared; solve_handles.
  - exists this', nodes'. split; [exact Hrun |]. split; [exact Hlen |]. split.
    + destruct (Hat 1%nat) as (Hnum & _); [lia | exact Hnum].
    + destruct (Hat 0%nat) as (_ & _ & Hmax & _); [lia | exact Hmax].
Defined.

Lemma Deviance_empty_window_witness :
  Deviance exp_special ex_y [] None ex_w ex_f 3 (-1) = Some S754_nan.
Proof.
  destruct (Deviance_empty_window exp_special ex_y [] None ex_w ex_f 3 (-1))
    as (_ & _ & Hneg).
  apply Hneg; lia.
Defined.

Lemma Deviance_reads_window_only_witness :
  Deviance exp_special ex_y [] None ex_w ex_f 1 1
  = Deviance exp_special ex_y0 [d0] None ex_w ex_f 1 1.
Proof.
  apply Deviance_reads_window_only. intros i Hi.
  assert (i = 1%nat) as ->.
  { unfold in_Deviance_range, to_ulong in Hi.
    rewrite !Z.mod_small in Hi by lia. lia. }
  by repeat split.
Defined.

Lemma BagImprovement_out_of_bag_only_witness :
  BagImprovement exp_special ex_y [] None ex_w ex_f ex_f ex_bag (of_int 1) 3
  = BagImprovement exp_special ex_y0 [d0] None ex_w ex_f ex_f ex_bag (of_int 1) 3.
Proof.
  apply BagImprovement_out_of_bag_only.
  intros [|[|[|i]]] Hi Hb; try lia; try discriminate Hb.
  by repeat split.
Defined.

Lemma FitBestConstant_in_bag_only_witness :
  FitBestConstant exp_special log_special ex_this ex_y0 [] None ex_w ex_f []
    ex_assign 3 ex_handles 2 0 ex_bag [] 0 ex_nodes
  = FitBestConstant exp_special log_special ex_this [d0; of_int 5; of_int 3] [d0] None
      ex_w ex_f [d0] ex_assign 3 ex_handles 2 1 ex_bag [d0] 1 ex_nodes.
Proof.
  destruct (FitBestConstant_in_bag_only exp_special log_special ex_this ex_this
    ex_y0 [] [d0; of_int 5; of_int 3] [d0] [] [] ex_w ex_f [] ex_w ex_f [d0]
    ex_assign ex_assign 3 ex_handles 2 0%nat 1%nat ex_bag [] [d0] 0 1 ex_nodes)
    as [Hnone _].
  apply Hnone.
  intros [|[|[|i]]] b Hi Hb Hne; try lia; injection Hb as <-; try congruence;
    by split.
Defined.

Lemma FitBestConstant_shared_handles_witness :
  ∃ this' nodes' num den mx mn,
    FitBestConstant exp_special log_special ex_this ex_y0 [] None ex_w ex_f []
      ex_assign 3 [Some 0%nat; Some 0%nat] 2 0 ex_bag [] 0 ex_nodes
    = Some (this', nodes')
    ∧ vecdNum this' !! 1%nat = Some num ∧ vecdDen this' !! 1%nat = Some den
    ∧ vecdMax this' !! 1%nat = Some mx ∧ vecdMin this' !! 1%nat = Some mn
    ∧ get_dPrediction nodes' 0
      = Some (fmax2 (fmin2 (if deqb num d0 then (- of_int 19)%D
                            else if deqb den d0 then d0
                            else log_special (num / den)%D)
                       (of_int 19 - mx)%D)
                (of_int (-19) - mn)%D).
Proof.
  destruct (FitBestConstant_shared_handles exp_special log_special ex_this ex_y0 []
    None ex_w ex_f [] ex_assign 3 [Some 0%nat; Some 0%nat] 2 0 ex_bag [] 0 ex_nodes)
    as (this' & nodes' & Hrun & Hlast).
  - apply ex_pre_shared; solve_handles.
  - destruct (Hlast 1%nat 0%nat) as (num & den & mx & mn & Hnode);
      [lia | done | intros i' Hi'; lia |].
    exists this', nodes', num, den, mx, mn. split; [exact Hrun | exact Hnode].
Defined.

Lemma FitBestConstant_empty_node_witness :
  ∃ this' nodes',
    FitBestConstant exp_special log_special ex_this ex_y0 [] None ex_w ex_f []
      [0; 0; 0]%nat 3 ex_handles 2 0 ex_bag [] 0 ex_nodes
    = Some (this', nodes')
    ∧ get_dPrediction nodes' 1 = Some (- of_int 19)%D.
Proof.
  destruct (FitBestConstant_empty_node exp_special log_special ex_this ex_y0 [] None
    ex_w ex_f [] [0; 0; 0]%nat 3 ex_handles 2 0 ex_bag [] 0 ex_nodes)
    as (this' & nodes' & Hrun & Hnode).
  - unfold FitBestConstant_pre.
    do 5 (split; [solve_lengths |]). split; [done |].
    split; [intros [|[|[|i]]] Hi; simpl; lia |].
    split; [solve_lengths |].
    split.
    + intros [|[|i]] a Hi Ha; try lia;
        [change (Some (Some 0%nat) = Some (Some a)) in Ha
        |change (Some (Some 1%nat) = Some (Some a)) in Ha];
        injection Ha as <-; simpl; lia.
    + intros [|[|i]] [|[|i']] a Hi Hi' Ha Ha'; try lia; try done;
        [change (Some (Some 0%nat) = Some (Some a)) in Ha;
         change (Some (Some 1%nat) = Some (Some a)) in Ha'
        |change (Some (Some 1%nat) = Some (Some a)) in Ha;
         change (Some (Some 0%nat) = Some (Some a)) in Ha']; congruence.
  - exists this', nodes'. split; [exact Hrun |].
    destruct (Hnode 1%nat 1%nat) as [Hempty _]; [lia | done |].
    apply Hempty. intros [|[|[|i]]] Hi; try lia; discriminate.
Defined.

Lemma Deviance_window_is_subarray_witness :
  Deviance exp_special ex_y [] None ex_w ex_f 2 1
  = Deviance exp_special (drop (Z.to_nat 1) ex_y) [] (drop (Z.to_nat 1) <$> None)
      (drop (Z.to_nat 1) ex_w) (drop (Z.to_nat 1) ex_f) 2 0.
Proof. apply Deviance_window_is_subarray; lia. Defined.

Lemma zero_offset_is_no_offset_witness :
  ComputeWorkingResponse exp_special ex_y [] (Some ex_f) ex_f ex_f ex_w ex_bag 3 0
  = ComputeWorkingResponse exp_special ex_y [] None ex_f ex_f ex_w ex_bag 3 0
  ∧ Deviance exp_special ex_y [] (Some ex_f) ex_w ex_f 3 0
    = Deviance exp_special ex_y [] None ex_w ex_f 3 0
  ∧ BagImprovement exp_special ex_y [] (Some ex_f) ex_w ex_f ex_f ex_bag (of_int 1) 3
    = BagImprovement exp_special ex_y [] None ex_w ex_f ex_f ex_bag (of_int 1) 3.
Proof.
  assert (∀ i, (i < 3)%nat → ∃ o, ex_f !! i = Some o ∧ is_zero o = true) as Hzero
    by (intros [|[|[|i]]] Hi; try lia; by exists d0).
  destruct (zero_offset_is_no_offset exp_special ex_y [] ex_f ex_f ex_f ex_w ex_f ex_bag
    (of_int 1) 3 3 0 exp_special_annex_F) as (Hz & Hd & Hb).
  split; [by apply Hz |]. split; [|by apply Hb].
  apply Hd. intros i Hi. apply Hzero.
  unfold in_Deviance_range, to_ulong in Hi. rewrite !Z.mod_small in Hi by lia. lia.
Defined.

Lemma bag_flags_are_booleans_witness :
  BagImprovement exp_special ex_y [] None ex_w ex_f ex_f ex_bag (of_int 1) 3
  = BagImprovement exp_special ex_y [] None ex_w ex_f ex_f [7; 0; -2] (of_int 1) 3
  ∧ FitBestConstant exp_special log_special ex_this ex_y [] None ex_w ex_f []
      ex_assign 3 ex_handles 2 0 ex_bag ex_f 0 ex_nodes
    = FitBestConstant exp_special log_special ex_this ex_y [] None ex_w ex_f []
        ex_assign 3 ex_handles 2 0 [7; 0; -2] ex_f 0 ex_nodes.
Proof.
  apply bag_flags_are_booleans.
  repeat (constructor; [split; intros H; (discriminate H || reflexivity) |]).
  constructor.
Defined.

Lemma FitBestConstant_idempotent_witness :
  ∃ this' nodes',
    FitBestConstant exp_special log_special ex_this ex_y0 [] None ex_w ex_f []
      ex_assign 3 ex_handles 2 0 ex_bag [] 0 ex_nodes
    = Some (this', nodes')
    ∧ FitBestConstant exp_special log_special this' ex_y0 [] None ex_w ex_f []
        ex_assign 3 ex_handles 2 0 ex_bag [] 0 nodes'
      = Some (this', nodes').
Proof. apply FitBestConstant_idempotent, ex_pre_shared; solve_handles. Defined.

Lemma FitBestConstant_node_local_witness :
  ∃ r r2,
    FitBestConstant exp_special log_special ex_this ex_y0 [] None ex_w ex_f []
      ex_assign 3 ex_handles 2 0 ex_bag [] 0 ex_nodes = Some r
    ∧ FitBestConstant exp_special log_special ex_this [d0; of_int 2; of_int 7] [] None
        [of_int 1; of_int 1; of_int 4] [d0; d0; of_int 1] [] ex_assign 3 ex_handles 2 0
        ex_bag [] 0 [{| dPrediction := of_int 1 |}; {| dPrediction := of_int 2 |}] = Some r2
    ∧ is_Some (get_dPrediction r.2 0)
    ∧ get_dPrediction r.2 0 = get_dPrediction r2.2 0.
Proof.
  apply FitBestConstant_node_local with (iNode := 0%nat).
  - apply ex_pre_any; solve_lengths.
  - apply ex_pre_any; solve_lengths.
  - lia.
  - done.
  - intros [|[|[|i]]] Hi Hk; try lia; try discriminate Hk; by repeat split.
  - done.
Defined.

Lemma ComputeWorkingResponse_overwrites_witness :
  ∃ adZ',
    ComputeWorkingResponse exp_special ex_y [] None ex_f ex_f ex_w ex_bag 3 0
      = Some adZ'
    ∧ ComputeWorkingResponse exp_special ex_y [] None ex_f adZ' ex_w ex_bag 3 0
      = Some adZ'
    ∧ ∀ adZ2, length adZ2 = length ex_f →
        (∀ i, (3 ≤ i)%nat → adZ2 !! i = ex_f !! i) →
        ComputeWorkingResponse exp_special ex_y [] None ex_f adZ2 ex_w ex_bag 3 0
        = Some adZ'.
Proof. apply ComputeWorkingResponse_overwrites; solve_lengths. Defined.

Lemma InitF_reads_prefix_only_witness :
  InitF exp_special log_special ex_y [] None ex_w 2
  = InitF exp_special log_special [of_int 1; of_int 2] [d0] None
      [of_int 1; of_int 1; of_int 5] 2.
Proof.
  destruct (InitF_reads_prefix_only exp_special log_special ex_y []
    [of_int 1; of_int 2] [d0] None None ex_w [of_int 1; of_int 1; of_int 5] 2)
    as [Hprefix _].
  apply Hprefix; [|done].
  intros [|[|i]] Hi; try lia; by repeat split.
Defined.
